(** * multiagent_inspect: sub-agent registry, run loop and chat protocol

    A shallow embedding of [src/multiagent_inspect/core.py].

    The Python module works on mutable objects: a [SubAgent] instance is
    shared between the caller, the session store and every closure that
    resolves it, and [sub_agent.messages.append] mutates that one object.
    The embedding therefore keeps an explicit heap of [SubAgent] objects
    addressed by location; the session store maps ids to locations, not to
    copies.  Exceptions are explicit outcomes, and the external
    collaborators (model lookup, model invocation, tool dispatch) are
    fields of a [Harness] interface that thread an opaque world of their
    own. *)

From Stdlib Require Import ZArith String Ascii List Lia.
From Stdlib Require Import Decimal DecimalString DecimalN.
From Stdlib Require DecimalZ.
From stdpp Require Import base list strings.

Open Scope string_scope.
Open Scope list_scope.
Open Scope Z_scope.

(** ** Python values used by the module *)

(** The exceptions the module can raise itself, and the failures of the
    collaborators, which it never catches. *)
Inductive PyExn : Type :=
| TypeError
| IndexError
| AttributeError
| KeyError
| UnboundLocalError
| CollaboratorError (what : string).

Inductive Outcome (A : Type) : Type :=
| Returns (a : A)
| Raises (e : PyExn).
Arguments Returns {A} a.
Arguments Raises {A} e.

(** The line feed of Python's ["\n"]. *)
Definition nl : string := String (ascii_of_nat 10) "".

(** [str(n)] for a Python [int]. *)
Definition str_int (n : Z) : string :=
  NilZero.string_of_int (Z.to_int n).

(** Decimal digits of a natural number, ["0"] for zero. *)
Definition digits (n : N) : string :=
  NilZero.string_of_uint (N.to_uint n).

Fixpoint zeros (k : nat) : string :=
  match k with
  | O => ""
  | S k' => String "0" (zeros k')
  end.

(** Left padding with ['0'] up to a minimum width; longer strings are kept
    whole. *)
Definition zfill (width : nat) (s : string) : string :=
  zeros (width - String.length s) +:+ s.

(** [f"{n:03d}"]: sign-aware zero padding to a minimum width of three. *)
Definition format_03d (n : Z) : string :=
  if n <? 0 then String "-" (zfill 2 (digits (Z.to_N (- n))))
  else zfill 3 (digits (Z.to_N n)).

(** [int(s)] on the strings [format_03d] produces for counters. *)
Definition int_of_id (s : string) : option Z :=
  match NilZero.uint_of_string s with
  | Some d => Some (Z.of_N (N.of_uint d))
  | None => None
  end.

(** [range(n)]: empty when [n <= 0]. *)
Definition range (n : Z) : list Z :=
  map Z.of_nat (seq 0 (Z.to_nat n)).

(** *** Insertion-ordered dictionaries

    A Python [dict] iterates in insertion order and assignment to an
    existing key keeps the key's position, so the registry is an
    association list with unique keys. *)
Abbreviation dict V := (list (string * V)) (only parsing).

Section Dict.
Context {V : Type}.

Definition dict_keys (d : dict V) : list string := map fst d.

Fixpoint dict_get (k : string) (d : dict V) : option V :=
  match d with
  | [] => None
  | (k', v) :: d' => if String.eqb k k' then Some v else dict_get k d'
  end.

(** [k in d] *)
Definition dict_contains (k : string) (d : dict V) : bool :=
  match dict_get k d with Some _ => true | None => false end.

(** [d[k] = v] *)
Fixpoint dict_setitem (k : string) (v : V) (d : dict V) : dict V :=
  match d with
  | [] => [(k, v)]
  | (k', v') :: d' =>
      if String.eqb k k' then (k', v) :: d'
      else (k', v') :: dict_setitem k v d'
  end.

(** [{k: v for (k, v) in items}] *)
Definition dict_of_items (items : list (string * V)) : dict V :=
  fold_left (fun d kv => dict_setitem (fst kv) (snd kv) d) items [].
End Dict.

(** ** Chat messages, tools and model output (inspect_ai value types) *)

Record ToolCall : Type := {
  call_id : string;
  call_function : string;
  call_arguments : string
}.

Record ChatMessageAssistant : Type := {
  text : string;
  tool_calls : option (list ToolCall)
}.

Record ChatMessageTool : Type := {
  tool_text : string;
  function : option string
}.

Inductive ChatMessage : Type :=
| ChatMessageSystem (content : string)
| ChatMessageUser (content : string)
| MessageAssistant (m : ChatMessageAssistant)
| MessageTool (m : ChatMessageTool).

Record ModelOutput : Type := { message : ChatMessageAssistant }.

(** A [Tool] is an opaque callable; the module only ever reads the name
    [ToolDef(t).name] registers it under. *)
Record Tool : Type := { ToolDef_name : string }.

(** The termination tool built by [_end_run()]. *)
Definition _end_run : Tool := {| ToolDef_name := "_end_run" |}.

(** Truthiness of [output.message.tool_calls]: [None] and the empty list
    are false. *)
Definition truthy {A : Type} (o : option (list A)) : bool :=
  match o with
  | Some (_ :: _) => true
  | _ => false
  end.

(** ** The sub-agent object *)

Record SubAgent : Type := {
  agent_id : string;
  max_steps : Z;
  public_description : string;
  model : string;
  tools : option (list Tool);
  metadata : option (dict string);
  messages : list ChatMessage
}.

Definition with_messages (a : SubAgent) (ms : list ChatMessage) : SubAgent :=
  {| agent_id := agent_id a;
     max_steps := max_steps a;
     public_description := public_description a;
     model := model a;
     tools := tools a;
     metadata := metadata a;
     messages := ms |}.

(** Keyword arguments of [SubAgent.__init__]. *)
Record InitArgs : Type := {
  arg_agent_id : option string;
  arg_max_steps : Z;
  arg_model : string;
  arg_public_description : string;
  arg_internal_description : string;
  arg_tools : option (list Tool);
  arg_metadata : option (dict string)
}.

(** The defaults of the signature: [SubAgent()]. *)
Definition default_args : InitArgs :=
  {| arg_agent_id := None;
     arg_max_steps := 10;
     arg_model := "openai/gpt-4o-mini-2024-07-18-free";
     arg_public_description := "";
     arg_internal_description := "";
     arg_tools := None;
     arg_metadata := None |}.

(** Object locations: indices into the heap. *)
Abbreviation loc := nat (only parsing).

(** ** Collaborators

    Everything the module imports from the harness.  The model client and
    the tool dispatcher are arbitrary: they may answer differently on every
    call and may fail, so each threads a [World] and returns an [Outcome].
    The module passes them neither the store nor a sub-agent object, so
    they do not touch the heap. *)
Class Harness : Type := {
  World : Type;
  (** [DEFAULT_SYSTEM_MESSAGE.format(submit=name)] *)
  DEFAULT_SYSTEM_MESSAGE_format : string -> string;
  (** [repr] of a [str], as used when a list of names is formatted *)
  repr_str : string -> string;
  (** [get_model(model)]: the lookup of the model client, which runs
      before the arguments of [.generate] are evaluated and may fail; the
      client it returns is determined by the name, so [generate] is given
      the name *)
  get_model : string -> World -> World * Outcome unit;
  (** [.generate(input=..., tools=...)] on the client of that name;
      [None] for the tools is the call that passes no [tools] argument *)
  generate :
    string -> list ChatMessage -> option (list Tool) ->
    World -> World * Outcome ModelOutput;
  (** [call_tools(message, tools)] *)
  call_tools :
    ChatMessageAssistant -> list Tool ->
    World -> World * Outcome (list ChatMessageTool)
}.

Section Core.
Context `{H : Harness}.

(** Ghost record of one collaborator invocation and its outcome. *)
Inductive Event : Type :=
| EvGenerate (m : string) (input : list ChatMessage)
    (offered : option (list Tool)) (out : Outcome ModelOutput)
| EvCallTools (msg : ChatMessageAssistant) (offered : list Tool)
    (out : Outcome (list ChatMessageTool)).

(** The interpreter state: the object heap, the class attribute
    [SubAgent._id_counter], the value stored under the key
    ["sub_agents"] of the session store ([None] while the key is unset),
    the collaborators' world, and the ghost log of collaborator calls in
    the order they were made. *)
Record State : Type := {
  heap : list SubAgent;
  _id_counter : Z;
  sub_agents : option (dict loc);
  world : World;
  log : list Event
}.

Definition set_heap (h : list SubAgent) (s : State) : State :=
  {| heap := h; _id_counter := _id_counter s; sub_agents := sub_agents s;
     world := world s; log := log s |}.

Definition set_counter (c : Z) (s : State) : State :=
  {| heap := heap s; _id_counter := c; sub_agents := sub_agents s;
     world := world s; log := log s |}.

Definition set_sub_agents (d : dict loc) (s : State) : State :=
  {| heap := heap s; _id_counter := _id_counter s; sub_agents := Some d;
     world := world s; log := log s |}.

Definition set_world (w : World) (ev : Event) (s : State) : State :=
  {| heap := heap s; _id_counter := _id_counter s;
     sub_agents := sub_agents s; world := w; log := log s ++ [ev] |}.

(** *** State and exception monad

    A raised exception keeps the state reached so far: mutations made
    before the raise are not rolled back. *)
Definition M (A : Type) : Type := State -> State * Outcome A.

Definition ret {A} (a : A) : M A := fun s => (s, Returns a).

Definition raise {A} (e : PyExn) : M A := fun s => (s, Raises e).

Definition bind {A B} (c : M A) (k : A -> M B) : M B :=
  fun s =>
    match c s with
    | (s', Returns a) => k a s'
    | (s', Raises e) => (s', Raises e)
    end.

Local Notation "'do' x <- c ; k" := (bind c (fun x => k))
  (at level 10, x name, c at level 100, k at level 200).
Local Notation "'exec' c ; k" := (bind c (fun _ => k))
  (at level 10, c at level 100, k at level 200).

(** Attribute access on a Python value that is an object or [None]. *)
Definition getattr {A} (o : option loc) (f : SubAgent -> A) : M A :=
  fun s =>
    match o with
    | None => (s, Raises AttributeError)
    | Some l =>
        match heap s !! l with
        | Some a => (s, Returns (f a))
        | None => (s, Raises AttributeError)
        end
    end.

(** [o.messages.append(m)] / [o.messages.extend(ms)]: in place. *)
Definition messages_extend (o : option loc) (ms : list ChatMessage)
  : M unit :=
  fun s =>
    match o with
    | None => (s, Raises AttributeError)
    | Some l =>
        match heap s !! l with
        | Some a =>
            (set_heap (<[l := with_messages a (messages a ++ ms)]> (heap s)) s,
             Returns tt)
        | None => (s, Raises AttributeError)
        end
    end.

(** [store().get("sub_agents", default)] *)
Definition store_get (default : dict loc) : M (dict loc) :=
  fun s =>
    match sub_agents s with
    | Some d => (s, Returns d)
    | None => (s, Returns default)
    end.

(** [store().set("sub_agents", d)] *)
Definition store_set (d : dict loc) : M unit :=
  fun s => (set_sub_agents d s, Returns tt).

Definition set_world_only (w : World) (s : State) : State :=
  {| heap := heap s; _id_counter := _id_counter s;
     sub_agents := sub_agents s; world := w; log := log s |}.

(** The lookup is not a model invocation and is not logged. *)
Definition do_get_model (m : string) : M unit :=
  fun s =>
    let '(w, out) := get_model m (world s) in
    (set_world_only w s, out).

Definition do_generate (m : string) (input : list ChatMessage)
    (offered : option (list Tool)) : M ModelOutput :=
  fun s =>
    let '(w, out) := generate m input offered (world s) in
    (set_world w (EvGenerate m input offered out) s, out).

Definition do_call_tools (msg : ChatMessageAssistant)
    (offered : list Tool) : M (list ChatMessageTool) :=
  fun s =>
    let '(w, out) := call_tools msg offered (world s) in
    (set_world w (EvCallTools msg offered out) s, out).

(** ** [SubAgent.__init__] and [SubAgent.__str__] *)

Definition guidance : string :=
  nl +:+ nl +:+
  "Only attempt tasks which you think you can do with your limited set of tools. After running a task, you might be asked questions about it. Only answer things that you know that you have done."
  +:+ nl +:+ nl.

(** Allocates the object and returns its location. *)
Definition SubAgent_init (args : InitArgs) : M loc :=
  fun s =>
    let '(id, counter) :=
      match arg_agent_id args with
      | None => (format_03d (_id_counter s), _id_counter s + 1)
      | Some id => (id, _id_counter s)
      end in
    let sys_msg :=
      DEFAULT_SYSTEM_MESSAGE_format "_end_run" +:+ guidance
      +:+ arg_internal_description args in
    let self :=
      {| agent_id := id;
         max_steps := arg_max_steps args;
         public_description := arg_public_description args;
         model := arg_model args;
         tools := arg_tools args;
         metadata := arg_metadata args;
         messages := [ChatMessageSystem sys_msg] |} in
    (set_heap (heap s ++ [self]) (set_counter counter s),
     Returns (length (heap s))).

(** [str(names)] for a list of strings. *)
Definition repr_list (names : list string) : string :=
  "[" +:+ String.concat ", " (map repr_str names) +:+ "]".

Definition SubAgent_str (self : SubAgent) : string :=
  let msg :=
    "ID: " +:+ agent_id self +:+ nl +:+
    "Model: " +:+ model self +:+ nl +:+
    "Description: " +:+ public_description self +:+ nl +:+
    "Max Steps: " +:+ str_int (max_steps self) +:+ nl in
  if truthy (tools self) then
    msg +:+ "Tools: "
        +:+ repr_list (map ToolDef_name (default [] (tools self))) +:+ nl
  else msg.

(** [str(x)] where [x] is a sub-agent object or [None]. *)
Definition str_of (o : option loc) : M string :=
  match o with
  | None => ret "None"
  | Some _ => getattr o SubAgent_str
  end.

(** ** Registry lookup and persist *)

(** [list(d.keys())[0]] *)
Definition first_key (d : dict loc) : M string :=
  match dict_keys d with
  | [] => raise IndexError
  | k :: _ => ret k
  end.

(** [d[k]] *)
Definition dict_getitem (k : string) (d : dict loc) : M loc :=
  match dict_get k d with
  | Some l => ret l
  | None => raise KeyError
  end.

Definition _get_agent (sub_agent_id : option string) : M (option loc) :=
  do d <- store_get [];
  do id <- match sub_agent_id with
           | None => first_key d
           | Some id => ret id
           end;
  if negb (dict_contains id d) then ret None
  else do l <- dict_getitem id d; ret (Some l).

Definition _update_store (sub_agent : option loc) : M unit :=
  do d <- store_get [];
  do id <- getattr sub_agent agent_id;
  match sub_agent with
  | Some l => store_set (dict_setitem id l d)
  | None => raise AttributeError
  end.

(** ** The run loop *)

(** [sub_agent.tools + [_end_run()]]: [None + list] is a [TypeError]. *)
Definition with_end_run (ts : option (list Tool)) : M (list Tool) :=
  match ts with
  | Some ts => ret (ts ++ [_end_run])
  | None => raise TypeError
  end.

(** [tool_result.function == "_end_run"] *)
Definition is_end_run (r : ChatMessageTool) : bool :=
  match function r with
  | Some f => String.eqb f "_end_run"
  | None => false
  end.

(** One iteration of the [for] body; the result says whether the body
    executed [break]. *)
Definition run_step (sub_agent : option loc) : M bool :=
  do m <- getattr sub_agent model;
  exec do_get_model m;
  do input <- getattr sub_agent messages;
  do ts <- getattr sub_agent tools;
  do offered <- with_end_run ts;
  do output <- do_generate m input (Some offered);
  exec messages_extend sub_agent [MessageAssistant (message output)];
  if truthy (tool_calls (message output)) then
    do ts' <- getattr sub_agent tools;
    do offered' <- with_end_run ts';
    do tool_results <- do_call_tools (message output) offered';
    exec messages_extend sub_agent (map MessageTool tool_results);
    ret (existsb is_end_run tool_results)
  else ret false.

(** [for steps in indices: body].  The second argument is the current
    binding of the loop variable [steps], [None] while it is unbound; the
    result is its binding when the loop is left. *)
Fixpoint run_loop (sub_agent : option loc) (indices : list Z)
    (steps : option Z) : M (option Z) :=
  match indices with
  | [] => ret steps
  | i :: rest =>
      do stop <- run_step sub_agent;
      if stop then ret (Some i)
      else run_loop sub_agent rest (Some i)
  end.

Definition status (steps : Z) : string :=
  "Sub agent ran for " +:+ str_int steps
  +:+ " steps. You can now ask it questions.".

Definition _run_logic (sub_agent : option loc) (instructions : string)
  : M string :=
  exec messages_extend sub_agent [ChatMessageUser instructions];
  do n <- getattr sub_agent max_steps;
  do steps <- run_loop sub_agent (range n) None;
  exec _update_store sub_agent;
  match steps with
  | Some k => ret (status k)
  | None => raise UnboundLocalError
  end.

(** ** The chat protocol *)

Definition _chat_logic (sub_agent : option loc) (question : string)
  : M string :=
  exec messages_extend sub_agent [ChatMessageUser question];
  do m <- getattr sub_agent model;
  exec do_get_model m;
  do input <- getattr sub_agent messages;
  do output <- do_generate m input None;
  exec messages_extend sub_agent [MessageAssistant (message output)];
  exec _update_store sub_agent;
  ret (text (message output)).

(** ** The tool surface

    Each factory returns one of two closures, chosen by the flag it was
    called with; a closure is represented by its factory and that flag. *)
Inductive Execute : Type :=
| sub_agent_specs (single_sub_agent : bool)
| run_sub_agent (single_sub_agent : bool)
| chat_with_sub_agent (single_sub_agent : bool).

(** [inspect.signature(execute).parameters] *)
Definition parameters (t : Execute) : list string :=
  match t with
  | sub_agent_specs _ => []
  | run_sub_agent true => ["instructions"]
  | run_sub_agent false => ["sub_agent_id"; "instructions"]
  | chat_with_sub_agent true => ["question"]
  | chat_with_sub_agent false => ["sub_agent_id"; "question"]
  end.

(** Iterating a [dict] yields its keys. *)
Definition iter_dict (d : dict loc) : list string := dict_keys d.

(** [str(s)] of a [str] is [s]. *)
Definition str_str (s : string) : string := s.

(** Calling a closure with positional string arguments; a wrong number of
    arguments is a [TypeError]. *)
Definition call (t : Execute) (args : list string) : M string :=
  match t, args with
  | sub_agent_specs true, [] =>
      do agent <- _get_agent None;
      str_of agent
  | sub_agent_specs false, [] =>
      do d <- store_get [];
      ret (String.concat nl (map str_str (iter_dict d)))
  | run_sub_agent true, [instructions] =>
      do agent <- _get_agent None;
      _run_logic agent instructions
  | run_sub_agent false, [sub_agent_id; instructions] =>
      do agent <- _get_agent (Some sub_agent_id);
      _run_logic agent instructions
  | chat_with_sub_agent true, [question] =>
      do agent <- _get_agent None;
      _chat_logic agent question
  | chat_with_sub_agent false, [sub_agent_id; question] =>
      do agent <- _get_agent (Some sub_agent_id);
      _chat_logic agent question
  | _, _ => raise TypeError
  end.

(** [{sub_agent.agent_id: sub_agent for sub_agent in sub_agents}]: the
    key of every element is read in list order. *)
Fixpoint id_items (objs : list loc) : M (list (string * loc)) :=
  match objs with
  | [] => ret []
  | l :: rest =>
      do id <- getattr (Some l) agent_id;
      do items <- id_items rest;
      ret ((id, l) :: items)
  end.

(** The result is [None] where the Python function falls off its end
    without a [return]. *)
Definition init_sub_agents (objs : list loc) : M (option (list Execute)) :=
  let len := Z.of_nat (length objs) in
  if len <? 1 then ret (Some [])
  else
    do items <- id_items objs;
    exec store_set (dict_of_items items);
    if len >? 1 then
      ret (Some [sub_agent_specs false; run_sub_agent false;
                 chat_with_sub_agent false])
    else if len =? 1 then
      ret (Some [sub_agent_specs true; run_sub_agent true;
                 chat_with_sub_agent true])
    else ret None.
End Core.


(** ** Sequences of top-level operations

    What a process can do with the module: construct a sub-agent, build a
    tool surface over some objects (which installs a new registry), or call
    one of the tools built earlier. *)
Inductive Action : Type :=
| Construct (args : InitArgs)
| Build (objs : list loc)
| Invoke (single_sub_agent : bool) (which : nat) (args : list string).

Section Process.
Context `{H : Harness}.

Definition nth_tool (single_sub_agent : bool) (which : nat) : Execute :=
  match which with
  | O => sub_agent_specs single_sub_agent
  | S O => run_sub_agent single_sub_agent
  | _ => chat_with_sub_agent single_sub_agent
  end.

(** Performs one action, whatever its outcome, and reports the id of the
    object it constructed, if it constructed one with the id omitted. *)
Definition perform (act : Action) (s : State) : State * option string :=
  match act with
  | Construct args =>
      let s' := fst (SubAgent_init args s) in
      match arg_agent_id args with
      | None => (s', agent_id <$> last (heap s'))
      | Some _ => (s', None)
      end
  | Build objs => (fst (init_sub_agents objs s), None)
  | Invoke single which args =>
      (fst (call (nth_tool single which) args s), None)
  end.

(** Performs the actions in order and collects the auto-assigned ids in
    construction order. *)
Fixpoint perform_all (acts : list Action) (s : State)
  : State * list string :=
  match acts with
  | [] => (s, [])
  | act :: rest =>
      let '(s1, id) := perform act s in
      let '(s2, ids) := perform_all rest s1 in
      (s2, match id with Some i => i :: ids | None => ids end)
  end.

(** The number of constructions that omit the id. *)
Definition is_auto (act : Action) : bool :=
  match act with
  | Construct args =>
      match arg_agent_id args with
      | None => true
      | Some _ => false
      end
  | _ => false
  end.

Fixpoint auto_count (acts : list Action) : nat :=
  match acts with
  | [] => O
  | act :: rest =>
      if is_auto act then S (auto_count rest) else auto_count rest
  end.

(** The state of a fresh process: nothing allocated, the class attribute
    at its initial value [1], the store key unset. *)
Definition fresh (w : World) : State :=
  {| heap := []; _id_counter := 1; sub_agents := None;
     world := w; log := [] |}.

(** ** Reading the ghost log *)

Definition is_generate (ev : Event) : bool :=
  match ev with
  | EvGenerate _ _ _ _ => true
  | EvCallTools _ _ _ => false
  end.

(** The number of model invocations recorded in a log. *)
Fixpoint invocations (evs : list Event) : nat :=
  match evs with
  | [] => O
  | ev :: rest =>
      if is_generate ev then S (invocations rest) else invocations rest
  end.

(** A dispatch that returned a result named after the termination
    tool. *)
Definition ended (ev : Event) : bool :=
  match ev with
  | EvCallTools _ _ (Returns results) => existsb is_end_run results
  | _ => false
  end.

Definition no_end (evs : list Event) : Prop :=
  Forall (fun ev => ended ev = false) evs.

End Process.

(** ** Concrete collaborators *)

(** A dispatcher that answers every requested call: the termination tool
    echoes its reason, any other tool answers ["dummy123"]. *)
Definition answer (c : ToolCall) : ChatMessageTool :=
  if String.eqb (call_function c) "_end_run" then
    {| tool_text := "Run ended with reason: " +:+ call_arguments c;
       function := Some "_end_run" |}
  else
    {| tool_text := "dummy123"; function := Some (call_function c) |}.

Definition plain_repr (s : string) : string := "'" +:+ s +:+ "'".

Definition say (s : string) : ModelOutput :=
  {| message := {| text := s; tool_calls := None |} |}.

Definition request (s : string) (calls : list ToolCall) : ModelOutput :=
  {| message := {| text := s; tool_calls := Some calls |} |}.

(** A model that replays a script of outputs and then keeps answering
    ["YES"]; it never fails. *)
Definition scripted : Harness :=
  {| World := list ModelOutput;
     DEFAULT_SYSTEM_MESSAGE_format := fun submit =>
       "You are a helpful assistant. Call " +:+ submit +:+ " when done.";
     repr_str := plain_repr;
     get_model := fun _ w => (w, Returns tt);
     generate := fun _ _ _ w =>
       match w with
       | [] => ([], Returns (say "YES"))
       | o :: w' => (w', Returns o)
       end;
     call_tools := fun msg _ w =>
       (w, Returns (map answer (default [] (tool_calls msg)))) |}.

(** A model client whose every invocation fails. *)
Definition unavailable : Harness :=
  {| World := unit;
     DEFAULT_SYSTEM_MESSAGE_format := fun submit =>
       "You are a helpful assistant. Call " +:+ submit +:+ " when done.";
     repr_str := plain_repr;
     get_model := fun _ w => (w, Returns tt);
     generate := fun _ _ _ w =>
       (w, Raises (CollaboratorError "model unavailable"));
     call_tools := fun msg _ w =>
       (w, Returns (map answer (default [] (tool_calls msg)))) |}.


(** * Specification vocabulary *)


(** ** Shapes of a loop iteration and of the whole loop

    [step_shape ts ms evs r]: an iteration on an object whose tools are
    [ts] appended the messages [ms], made the collaborator calls [evs] and
    ended with [r].  An iteration whose model lookup fails, or whose
    object has no tools, makes no call; every call that is made is offered
    the object's own tools followed by the termination tool. *)
Inductive step_shape (ts : option (list Tool))
  : list ChatMessage -> list Event -> Outcome bool -> Prop :=
| step_unresolved e :
    step_shape ts [] [] (Raises e)
| step_no_tools :
    ts = None ->
    step_shape ts [] [] (Raises TypeError)
| step_model_fails own m input e :
    ts = Some own ->
    step_shape ts []
      [EvGenerate m input (Some (own ++ [_end_run])) (Raises e)] (Raises e)
| step_quiet own m input o :
    ts = Some own ->
    truthy (tool_calls (message o)) = false ->
    step_shape ts [MessageAssistant (message o)]
      [EvGenerate m input (Some (own ++ [_end_run])) (Returns o)]
      (Returns false)
| step_dispatch_fails own m input o e :
    ts = Some own ->
    truthy (tool_calls (message o)) = true ->
    step_shape ts [MessageAssistant (message o)]
      [EvGenerate m input (Some (own ++ [_end_run])) (Returns o);
       EvCallTools (message o) (own ++ [_end_run]) (Raises e)] (Raises e)
| step_dispatched own m input o results :
    ts = Some own ->
    truthy (tool_calls (message o)) = true ->
    step_shape ts
      (MessageAssistant (message o) :: map MessageTool results)
      [EvGenerate m input (Some (own ++ [_end_run])) (Returns o);
       EvCallTools (message o) (own ++ [_end_run]) (Returns results)]
      (Returns (existsb is_end_run results)).

(** [loop_shape ts indices steps ms evs r]: the [for] loop over [indices],
    entered with the loop variable bound to [steps]. *)
Inductive loop_shape (ts : option (list Tool))
  : list Z -> option Z -> list ChatMessage -> list Event ->
    Outcome (option Z) -> Prop :=
| loop_exhausted steps :
    loop_shape ts [] steps [] [] (Returns steps)
| loop_break i rest steps ms evs :
    step_shape ts ms evs (Returns true) ->
    loop_shape ts (i :: rest) steps ms evs (Returns (Some i))
| loop_raise i rest steps ms evs e :
    step_shape ts ms evs (Raises e) ->
    loop_shape ts (i :: rest) steps ms evs (Raises e)
| loop_next i rest steps ms evs ms' evs' r :
    step_shape ts ms evs (Returns false) ->
    loop_shape ts rest (Some i) ms' evs' r ->
    loop_shape ts (i :: rest) steps (ms ++ ms') (evs ++ evs') r.

Section Vocabulary.
Context `{H : Harness}.

(** [evolves l a ms evs s s']: from [s] to [s'] the object at [l], which
    was [a], had [ms] appended to its messages, the collaborator calls
    [evs] were made, and nothing else changed but the world. *)
Record evolves (l : loc) (a : SubAgent) (ms : list ChatMessage)
    (evs : list Event) (s s' : State) : Prop := {
  ev_heap : heap s' = <[l := with_messages a (messages a ++ ms)]> (heap s);
  ev_counter : _id_counter s' = _id_counter s;
  ev_store : sub_agents s' = sub_agents s;
  ev_log : log s' = log s ++ evs
}.

(** How a run on a live object ends, given how its loop ended. *)
Definition run_result (r : Outcome (option Z)) : Outcome string :=
  match r with
  | Returns (Some k) => Returns (status k)
  | Returns None => Raises UnboundLocalError
  | Raises e => Raises e
  end.

Definition persisted (l : loc) (a : SubAgent) (r : Outcome (option Z))
    (s s' : State) : Prop :=
  match r with
  | Returns _ =>
      sub_agents s' =
        Some (dict_setitem (agent_id a) l (default [] (sub_agents s)))
  | Raises _ => sub_agents s' = sub_agents s
  end.

(** An event of the log is justified when the collaborator can really
    answer that call with that outcome. *)
Definition justified (ev : Event) : Prop :=
  match ev with
  | EvGenerate m input offered out =>
      exists w w', generate m input offered w = (w', out)
  | EvCallTools msg offered out =>
      exists w w', call_tools msg offered w = (w', out)
  end.

(** Collaborators that never fail. *)
Definition reliable : Prop :=
  (forall m w, exists w', get_model m w = (w', Returns tt))
  /\ (forall m input offered w,
         exists w' o, generate m input offered w = (w', Returns o))
  /\ (forall msg offered w,
         exists w' results, call_tools msg offered w = (w', Returns results)).

(** The binding of the loop variable after a loop that ran over all of
    [indices]. *)
Definition last_index (indices : list Z) (steps : option Z) : option Z :=
  match last indices with
  | Some i => Some i
  | None => steps
  end.
End Vocabulary.

(** What the log and the loop variable of a finished loop look like: a
    failed loop saw no termination result; a loop left normally either ran
    every index and saw none, or saw one as its very last event, in the
    iteration whose index the loop variable still holds. *)
Definition loop_outcome (indices : list Z) (steps : option Z)
    (evs : list Event) (r : Outcome (option Z)) : Prop :=
  match r with
  | Raises _ => no_end evs /\ (invocations evs <= length indices)%nat
  | Returns st =>
      (no_end evs /\ invocations evs = length indices
       /\ st = last_index indices steps)
      \/ (exists pre ev before i after,
             evs = pre ++ [ev] /\ no_end pre /\ ended ev = true
             /\ indices = before ++ i :: after
             /\ invocations evs = S (length before)
             /\ st = Some i)
  end.

Section Surface.
Context `{H : Harness}.

(** The object at a location is allocated. *)
Definition live (s : State) (l : loc) : Prop := is_Some (heap s !! l).

(** The [(id, object)] pairs of a list of objects, in list order. *)
Definition items_of (s : State) (objs : list loc) : list (string * loc) :=
  omap (fun l => (fun a => (agent_id a, l)) <$> heap s !! l) objs.

(** A computation leaves the class attribute [_id_counter] alone. *)
Definition keeps_counter {A} (c : M A) : Prop :=
  forall s, _id_counter (fst (c s)) = _id_counter s.

(** The multi-mode listing as the specification words it: the
    description of every registered entity, one per line, in registry
    order. *)
Definition spec_list_specs (s : State) : string :=
  String.concat nl
    (omap (fun kv => SubAgent_str <$> heap s !! snd kv)
       (default [] (sub_agents s))).
End Surface.

(** ** Concrete scenarios *)

Definition dummy_tool : Tool := {| ToolDef_name := "dummy_tool" |}.

(** [SubAgent(max_steps=n, tools=[dummy_tool()])] *)
Definition worker_args (n : Z) : InitArgs :=
  {| arg_agent_id := None;
     arg_max_steps := n;
     arg_model := "openai/gpt-4o";
     arg_public_description := "Test agent";
     arg_internal_description := "";
     arg_tools := Some [dummy_tool];
     arg_metadata := None |}.

(** The state reached from [s] by constructing one object per argument
    record and building the tool surface over all of them. *)
Definition construct_and_build `{H : Harness} (argss : list InitArgs)
    (s : State) : State :=
  let s' := fold_left (fun s args => fst (SubAgent_init args s)) argss s in
  fst (init_sub_agents (seq (length (heap s)) (length argss)) s').

(** Two default objects behind a multi-mode surface. *)
Definition two_defaults : @State scripted :=
  construct_and_build [default_args; default_args] (@fresh scripted []).

(** One worker with a budget of three steps, whose model first asks for
    the dummy tool and the termination tool in one message. *)
Definition one_worker : @State scripted :=
  construct_and_build [worker_args 3]
    (@fresh scripted
       [request "I accept the task"
              [{| call_id := "1"; call_function := "dummy_tool";
                  call_arguments := "" |};
               {| call_id := "2"; call_function := "_end_run";
                  call_arguments := "dummy123" |}]]).

(** A process that constructs a thousand default objects. *)
Definition thousand_defaults : list Action :=
  repeat (Construct default_args) 1000.

(** A process that works with two registries in turn. *)
Definition two_registries : list Action :=
  [Construct default_args; Construct (worker_args 1); Build [0; 1]%nat;
   Invoke false 2 ["001"; "Are you ready?"];
   Construct default_args; Build [2]%nat; Invoke true 1 ["go"];
   Construct default_args].

(** The object at a location of a scenario (a blank object where there
    is none). *)
Definition object_at `{H : Harness} (s : State) (l : loc) : SubAgent :=
  default
    {| agent_id := ""; max_steps := 0; public_description := "";
       model := ""; tools := None; metadata := None; messages := [] |}
    (heap s !! l).

(** One worker with a budget of three steps, whose model only ever
    answers in text. *)
Definition quiet_worker : @State scripted :=
  construct_and_build [worker_args 3] (@fresh scripted []).

(** One worker with a budget of three steps, whose model answers in text
    first and asks for the termination tool in its second message. *)
Definition late_worker : @State scripted :=
  construct_and_build [worker_args 3]
    (@fresh scripted
       [say "Let me think.";
        request "Done."
          [{| call_id := "1"; call_function := "_end_run";
              call_arguments := "finished" |}]]).




(** One worker that was given no budget. *)
Definition idle_worker : @State scripted :=
  construct_and_build [worker_args 0] (@fresh scripted []).

(** One worker whose model client is down. *)
Definition stranded_worker : @State unavailable :=
  construct_and_build [worker_args 3] (@fresh unavailable tt).

(** ** Histories and invariants *)

(** The messages a collaborator call contributes to the history: the
    assistant message of a model call that returned, the results of a
    dispatch that returned, nothing for a call that failed. *)
Definition event_messages (ev : Event) : list ChatMessage :=
  match ev with
  | EvGenerate _ _ _ (Returns o) => [MessageAssistant (message o)]
  | EvCallTools _ _ (Returns results) => map MessageTool results
  | _ => []
  end.

Definition transcript (evs : list Event) : list ChatMessage :=
  concat (map event_messages evs).

(** [well_fed m offered hist evs]: replaying the calls [evs] from the
    history [hist], every model call went to the model [m] with the
    history as it stood at that moment and the tools [offered], and every
    dispatch was given the assistant message that ends the history at
    that moment, with the same tools. *)
Fixpoint well_fed (m : string) (offered : list Tool)
    (hist : list ChatMessage) (evs : list Event) : Prop :=
  match evs with
  | [] => True
  | ev :: rest =>
      match ev with
      | EvGenerate m' input offered' _ =>
          m' = m /\ input = hist /\ offered' = Some offered
      | EvCallTools msg offered' _ =>
          last hist = Some (MessageAssistant msg) /\ offered' = offered
      end
      /\ well_fed m offered (hist ++ event_messages ev) rest
  end.

Section Invariants.
Context `{H : Harness}.

(** From [s] to [s'] no object was added or removed, and every object
    kept all its fields but its messages, which were only appended to. *)
Definition grows (s s' : State) : Prop :=
  length (heap s') = length (heap s)
  /\ forall l a,
      heap s !! l = Some a ->
      exists ms, heap s' !! l = Some (with_messages a (messages a ++ ms)).

(** The registry has one entry per key, and every entry holds an
    allocated object whose [agent_id] is the key it is stored under. *)
Definition registry_ok (s : State) : Prop :=
  NoDup (dict_keys (default [] (sub_agents s)))
  /\ forall k l,
      dict_get k (default [] (sub_agents s)) = Some l ->
      exists a, heap s !! l = Some a /\ agent_id a = k.

(** Every object's history starts with a system message. *)
Definition seeded (s : State) : Prop :=
  Forall (fun a => exists c rest, messages a = ChatMessageSystem c :: rest)
    (heap s).

(** A step between states that only appends to histories and takes a
    well-formed registry to a well-formed registry. *)
Definition steady (s s' : State) : Prop :=
  grows s s' /\ (registry_ok s -> registry_ok s').

(** A computation every run of which is such a step, whatever it returns
    or raises. *)
Definition steadily {A} (c : M A) : Prop :=
  forall s, steady s (fst (c s)).
End Invariants.

(** * Properties *)

Section Effects.
Context `{H : Harness}.

Lemma with_messages_same a : with_messages a (messages a) = a.
Proof. by destruct a. Qed.

Lemma with_messages_twice a ms ms' :
  with_messages (with_messages a ms) ms' = with_messages a ms'.
Proof. done. Qed.

Lemma evolves_refl l a s : heap s !! l = Some a -> evolves l a [] [] s s.
Proof.
  intros Hl. split; try done.
  - rewrite app_nil_r, with_messages_same. by rewrite list_insert_id.
  - by rewrite app_nil_r.
Qed.

Lemma evolves_lookup l a ms evs s s' :
  heap s !! l = Some a -> evolves l a ms evs s s' ->
  heap s' !! l = Some (with_messages a (messages a ++ ms)).
Proof.
  intros Hl [Hh _ _ _]. rewrite Hh.
  apply list_lookup_insert_eq. by eapply lookup_lt_Some.
Qed.

Lemma evolves_trans l a ms1 evs1 ms2 evs2 s1 s2 s3 :
  evolves l a ms1 evs1 s1 s2 ->
  evolves l (with_messages a (messages a ++ ms1)) ms2 evs2 s2 s3 ->
  evolves l a (ms1 ++ ms2) (evs1 ++ evs2) s1 s3.
Proof.
  intros [Hh1 Hc1 Hs1 Hl1] [Hh2 Hc2 Hs2 Hl2]. split.
  - rewrite Hh2, Hh1, list_insert_insert_eq. simpl.
    by rewrite with_messages_twice, app_assoc.
  - congruence.
  - congruence.
  - by rewrite Hl2, Hl1, app_assoc.
Qed.

Lemma evolves_other l a ms evs s s' l' :
  l' <> l -> evolves l a ms evs s s' -> heap s' !! l' = heap s !! l'.
Proof.
  intros Hne [Hh _ _ _]. rewrite Hh. by apply list_lookup_insert_ne.
Qed.

Lemma bind_returns {A B} (c : M A) (k : A -> M B) s s' a :
  c s = (s', Returns a) -> bind c k s = k a s'.
Proof. intros Hc. unfold bind. by rewrite Hc. Qed.

Lemma bind_raises {A B} (c : M A) (k : A -> M B) s s' e :
  c s = (s', Raises e) -> bind c k s = (s', Raises e).
Proof. intros Hc. unfold bind. by rewrite Hc. Qed.

(** *** The primitives, evaluated on a live object *)

Lemma getattr_live {A} (f : SubAgent -> A) l a s :
  heap s !! l = Some a -> getattr (Some l) f s = (s, Returns (f a)).
Proof. intros Hl. unfold getattr. by rewrite Hl. Qed.

Lemma messages_extend_live l a ms s :
  heap s !! l = Some a ->
  exists s', messages_extend (Some l) ms s = (s', Returns tt)
             /\ evolves l a ms [] s s'.
Proof.
  intros Hl. unfold messages_extend. rewrite Hl. eexists. split; [done|].
  split; simpl; try done. by rewrite app_nil_r.
Qed.

Lemma do_get_model_spec m l a s :
  heap s !! l = Some a ->
  exists s' out, do_get_model m s = (s', out)
    /\ get_model m (world s) = (world s', out)
    /\ evolves l a [] [] s s'.
Proof.
  intros Hl. unfold do_get_model.
  destruct (get_model m (world s)) as [w out] eqn:Hg.
  eexists _, _. split; [done|]. split; [done|].
  split; simpl; try done.
  - rewrite app_nil_r, with_messages_same. by rewrite list_insert_id.
  - by rewrite app_nil_r.
Qed.

Lemma do_generate_spec m input offered l a s :
  heap s !! l = Some a ->
  exists s' out, do_generate m input offered s = (s', out)
    /\ generate m input offered (world s) = (world s', out)
    /\ evolves l a [] [EvGenerate m input offered out] s s'.
Proof.
  intros Hl. unfold do_generate.
  destruct (generate m input offered (world s)) as [w out] eqn:Hg.
  eexists _, _. split; [done|]. split; [done|].
  split; simpl; try done.
  rewrite app_nil_r, with_messages_same. by rewrite list_insert_id.
Qed.

Lemma do_call_tools_spec msg offered l a s :
  heap s !! l = Some a ->
  exists s' out, do_call_tools msg offered s = (s', out)
    /\ call_tools msg offered (world s) = (world s', out)
    /\ evolves l a [] [EvCallTools msg offered out] s s'.
Proof.
  intros Hl. unfold do_call_tools.
  destruct (call_tools msg offered (world s)) as [w out] eqn:Hg.
  eexists _, _. split; [done|]. split; [done|].
  split; simpl; try done.
  rewrite app_nil_r, with_messages_same. by rewrite list_insert_id.
Qed.
End Effects.

Section RunLoop.
Context `{H : Harness}.

Lemma evolves_lookup_nil l a evs s s' :
  heap s !! l = Some a -> evolves l a [] evs s s' -> heap s' !! l = Some a.
Proof.
  intros Hl Hev. rewrite (evolves_lookup _ _ _ _ _ _ Hl Hev).
  by rewrite app_nil_r, with_messages_same.
Qed.

Lemma evolves_trans_nil l a evs1 ms2 evs2 s1 s2 s3 :
  evolves l a [] evs1 s1 s2 ->
  evolves l a ms2 evs2 s2 s3 ->
  evolves l a ms2 (evs1 ++ evs2) s1 s3.
Proof.
  intros Hev1 Hev2.
  apply (evolves_trans l a [] evs1 ms2 evs2 s1 s2 s3 Hev1).
  by rewrite app_nil_r, with_messages_same.
Qed.

Lemma justified_generate m input offered w w' out :
  generate m input offered w = (w', out) ->
  justified (EvGenerate m input offered out).
Proof. intros Hg. by exists w, w'. Qed.

Lemma justified_call_tools msg offered w w' out :
  call_tools msg offered w = (w', out) ->
  justified (EvCallTools msg offered out).
Proof. intros Hg. by exists w, w'. Qed.

(** One iteration on a live object: what it appends, which calls it
    makes, and how it ends. *)
Lemma run_step_spec l a s :
  heap s !! l = Some a ->
  exists ms evs,
    evolves l a ms evs s (fst (run_step (Some l) s))
    /\ step_shape (tools a) ms evs (snd (run_step (Some l) s))
    /\ Forall justified evs.
Proof.
  intros Hl. unfold run_step.
  erewrite bind_returns by (apply getattr_live; exact Hl).
  destruct (do_get_model_spec (model a) l a s Hl)
    as (s0 & out0 & Hgm & _ & Hev0).
  pose proof (evolves_lookup_nil _ _ _ _ _ Hl Hev0) as Hl0.
  destruct out0 as [[]|e0].
  2:{ erewrite bind_raises by exact Hgm.
      exists [], []. split; [exact Hev0|]. split; constructor. }
  erewrite bind_returns by exact Hgm.
  do 2 (erewrite bind_returns by (apply getattr_live; exact Hl0)).
  destruct (tools a) as [ts|] eqn:Hts.
  2:{ erewrite bind_raises by reflexivity.
      exists [], []. split; [exact Hev0|].
      split; [by apply step_no_tools | constructor]. }
  erewrite bind_returns by reflexivity.
  destruct (do_generate_spec (model a) (messages a) (Some (ts ++ [_end_run]))
              l a s0 Hl0) as (s1 & out & Hg & Hj1 & Hev1').
  apply justified_generate in Hj1.
  pose proof (evolves_trans_nil _ _ _ _ _ _ _ _ Hev0 Hev1') as Hev1.
  pose proof (evolves_lookup_nil _ _ _ _ _ Hl Hev1) as Hl1.
  destruct out as [o|e].
  2:{ erewrite bind_raises by exact Hg.
      eexists [], _. split; [exact Hev1|].
      split; [by econstructor | by repeat constructor]. }
  erewrite bind_returns by exact Hg.
  destruct (messages_extend_live l a [MessageAssistant (message o)] s1 Hl1)
    as (s2 & Hm & Hev2).
  erewrite bind_returns by exact Hm.
  pose proof (evolves_lookup _ _ _ _ _ _ Hl1 Hev2) as Hl2.
  pose proof (evolves_trans_nil _ _ _ _ _ _ _ _ Hev1 Hev2) as Hev12.
  destruct (truthy (tool_calls (message o))) eqn:Htc.
  2:{ eexists _, _. split; [exact Hev12|].
      split; [by econstructor | by repeat constructor]. }
  erewrite bind_returns by (apply getattr_live; exact Hl2).
  cbn [tools with_messages]. rewrite Hts.
  erewrite bind_returns by reflexivity.
  destruct (do_call_tools_spec (message o) (ts ++ [_end_run]) l _ s2 Hl2)
    as (s3 & out & Hc & Hj3 & Hev3).
  apply justified_call_tools in Hj3.
  pose proof (evolves_lookup_nil _ _ _ _ _ Hl2 Hev3) as Hl3.
  destruct out as [results|e].
  2:{ erewrite bind_raises by exact Hc.
      eexists _, _. split.
      - eapply evolves_trans; [exact Hev12 | exact Hev3].
      - rewrite app_nil_r.
        split; [by econstructor | by repeat constructor]. }
  erewrite bind_returns by exact Hc.
  destruct (messages_extend_live l _ (map MessageTool results) s3 Hl3)
    as (s4 & Hm4 & Hev4).
  erewrite bind_returns by exact Hm4.
  eexists _, _. split.
  - eapply evolves_trans; [exact Hev12|].
    exact (evolves_trans_nil _ _ _ _ _ _ _ _ Hev3 Hev4).
  - split; [by econstructor | by repeat constructor].
Qed.

(** The whole loop on a live object. *)
Lemma run_loop_spec l a indices :
  forall steps s,
    heap s !! l = Some a ->
    exists ms evs,
      evolves l a ms evs s (fst (run_loop (Some l) indices steps s))
      /\ loop_shape (tools a) indices steps ms evs
           (snd (run_loop (Some l) indices steps s))
      /\ Forall justified evs.
Proof.
  revert a. induction indices as [|i rest IH]; intros a steps s Hl.
  - exists [], []. split; [by apply evolves_refl|].
    split; constructor.
  - cbn [run_loop].
    destruct (run_step_spec l a s Hl) as (ms & evs & Hev & Hshape & Hj).
    destruct (run_step (Some l) s) as [s1 [[|]|e]] eqn:Hstep;
      cbn [fst snd] in Hev, Hshape.
    + erewrite bind_returns by exact Hstep.
      exists ms, evs. split; [exact Hev|]. split; [by constructor | done].
    + erewrite bind_returns by exact Hstep.
      pose proof (evolves_lookup _ _ _ _ _ _ Hl Hev) as Hl1.
      destruct (IH _ (Some i) s1 Hl1)
        as (ms' & evs' & Hev' & Hshape' & Hj').
      exists (ms ++ ms'), (evs ++ evs'). split; [by eapply evolves_trans|].
      split; [by eapply loop_next | by apply Forall_app].
    + erewrite bind_raises by exact Hstep.
      exists ms, evs. split; [exact Hev|]. split; [by constructor | done].
Qed.

(** [_update_store] on a live object rebinds its id and nothing else. *)
Lemma _update_store_live l a s :
  heap s !! l = Some a ->
  _update_store (Some l) s =
    (set_sub_agents
       (dict_setitem (agent_id a) l (default [] (sub_agents s))) s,
     Returns tt).
Proof.
  intros Hl. unfold _update_store.
  assert (store_get [] s = (s, Returns (default [] (sub_agents s)))) as Hg.
  { unfold store_get. by destruct (sub_agents s). }
  erewrite bind_returns by exact Hg.
  erewrite bind_returns by (apply getattr_live; exact Hl).
  reflexivity.
Qed.

(** A run on a live object: the instruction and the loop's messages are
    appended in place, the registry is written exactly when the loop is
    left normally, and the result is read off the loop variable. *)
Lemma _run_logic_spec l a instructions s :
  heap s !! l = Some a ->
  exists ms evs r,
    let s' := fst (_run_logic (Some l) instructions s) in
    heap s' = <[l := with_messages a
                       (messages a ++ ChatMessageUser instructions :: ms)]>
                (heap s)
    /\ _id_counter s' = _id_counter s
    /\ log s' = log s ++ evs
    /\ persisted l a r s s'
    /\ loop_shape (tools a) (range (max_steps a)) None ms evs r
    /\ Forall justified evs
    /\ snd (_run_logic (Some l) instructions s) = run_result r.
Proof.
  intros Hl. unfold _run_logic.
  destruct (messages_extend_live l a [ChatMessageUser instructions] s Hl)
    as (s1 & Hm & Hev1).
  erewrite bind_returns by exact Hm.
  pose proof (evolves_lookup _ _ _ _ _ _ Hl Hev1) as Hl1.
  erewrite bind_returns by (apply getattr_live; exact Hl1).
  cbn [max_steps with_messages].
  destruct (run_loop_spec l _ (range (max_steps a)) None s1 Hl1)
    as (ms & evs & Hev2 & Hshape & Hj).
  cbn [tools with_messages] in Hshape.
  pose proof (evolves_trans _ _ _ _ _ _ _ _ _ Hev1 Hev2) as Hev.
  pose proof (evolves_lookup _ _ _ _ _ _ Hl Hev) as Hl2.
  destruct Hev as [Hh Hc Hs Hlog].
  destruct (run_loop (Some l) (range (max_steps a)) None s1)
    as [s2 [steps|e]] eqn:Hloop; cbn [fst snd] in *.
  - erewrite bind_returns by exact Hloop.
    erewrite bind_returns by (apply _update_store_live; exact Hl2).
    exists ms, evs, (Returns steps).
    destruct steps as [k|]; cbn; rewrite Hs; by repeat split.
  - erewrite bind_raises by exact Hloop.
    exists ms, evs, (Raises e). cbn. by repeat split.
Qed.
End RunLoop.

(** ** Reading a loop's log *)
Section Traces.

Lemma invocations_app evs evs' :
  invocations (evs ++ evs') = (invocations evs + invocations evs')%nat.
Proof.
  induction evs as [|ev evs IH]; [done|].
  cbn. destruct (is_generate ev); cbn; lia.
Qed.

Lemma no_end_app evs evs' : no_end evs -> no_end evs' -> no_end (evs ++ evs').
Proof. apply Forall_app_2. Qed.

Lemma step_invocations ts ms evs r :
  step_shape ts ms evs r -> (invocations evs <= 1)%nat.
Proof. destruct 1; cbn; lia. Qed.

Lemma step_continues ts ms evs :
  step_shape ts ms evs (Returns false) ->
  invocations evs = 1%nat /\ no_end evs.
Proof.
  inversion 1; subst; (split; [done|]).
  - by repeat constructor.
  - repeat constructor. cbn. congruence.
Qed.

Lemma step_breaks ts ms evs :
  step_shape ts ms evs (Returns true) ->
  invocations evs = 1%nat
  /\ exists pre ev, evs = pre ++ [ev] /\ no_end pre /\ ended ev = true.
Proof.
  inversion 1; subst. split; [done|].
  eexists [_], _. split; [done|]. split; [by repeat constructor|].
  cbn. congruence.
Qed.

Lemma step_fails ts ms evs e :
  step_shape ts ms evs (Raises e) -> no_end evs.
Proof. inversion 1; subst; by repeat constructor. Qed.

Lemma last_index_cons i rest steps :
  last_index (i :: rest) steps = last_index rest (Some i).
Proof.
  unfold last_index. destruct rest as [|j rest]; [done|].
  change (last (i :: j :: rest)) with (last (j :: rest)).
  destruct (last (j :: rest)) eqn:Hlast; [done|].
  by apply last_None in Hlast.
Qed.

Lemma loop_shape_outcome ts indices steps ms evs r :
  loop_shape ts indices steps ms evs r ->
  loop_outcome indices steps evs r.
Proof.
  induction 1 as [steps | i rest steps ms evs Hs | i rest steps ms evs e Hs
                 | i rest steps ms evs ms' evs' r Hs Hl IH].
  - left. split; [constructor|]. by split.
  - destruct (step_breaks _ _ _ Hs) as (Hn & pre & ev & -> & Hpre & Hev).
    right. exists pre, ev, [], i, rest. by repeat split.
  - split; [by eapply step_fails|].
    pose proof (step_invocations _ _ _ _ Hs). cbn. lia.
  - destruct (step_continues _ _ _ Hs) as [Hn Hne].
    destruct r as [st|e]; cbn in IH |- *.
    + destruct IH as [(Hne' & Hn' & ->)
                     | (pre & ev & before & j & after
                        & -> & Hpre & Hev & -> & Hn' & ->)].
      * left. split; [by apply no_end_app|].
        rewrite invocations_app, last_index_cons. split; [lia | done].
      * right. exists (evs ++ pre), ev, (i :: before), j, after.
        rewrite app_assoc. split; [done|].
        split; [by apply no_end_app|]. split; [done|]. split; [done|].
        rewrite <- app_assoc, invocations_app. cbn. split; [lia | done].
    + destruct IH as [Hne' Hn']. split; [by apply no_end_app|].
      rewrite invocations_app. cbn. lia.
Qed.


Lemma no_end_split pre ev post :
  no_end (pre ++ ev :: post) -> ended ev = true -> False.
Proof.
  intros Hne Hev. apply Forall_app in Hne as [_ Hne].
  apply Forall_cons in Hne as [Hne _]. congruence.
Qed.

(** The index stored at a position of [range n] is the position. *)
Lemma range_split n before i after :
  range n = before ++ i :: after -> i = Z.of_nat (length before).
Proof.
  intros Heq.
  assert (range n !! length before = Some i) as Hi.
  { rewrite Heq. by rewrite list_lookup_middle. }
  unfold range in Hi. rewrite list_lookup_fmap in Hi.
  destruct (seq 0 (Z.to_nat n) !! length before) as [k|] eqn:Hk;
    [|done].
  apply lookup_seq in Hk as [-> _]. cbn in Hi. congruence.
Qed.

Lemma range_length n : length (range n) = Z.to_nat n.
Proof. unfold range. by rewrite length_map, length_seq. Qed.

Lemma range_last n : 1 <= n -> last (range n) = Some (n - 1).
Proof.
  intros Hn. unfold range.
  replace (Z.to_nat n) with (S (Z.to_nat (n - 1))) by lia.
  rewrite seq_S, map_app. cbn [map]. rewrite last_snoc. f_equal. lia.
Qed.
End Traces.

(** ** Collaborators that never fail *)
Section Reliable.
Context `{H : Harness}.

Lemma run_step_returns l a s :
  reliable -> heap s !! l = Some a -> is_Some (tools a) ->
  exists b, snd (run_step (Some l) s) = Returns b.
Proof.
  intros (Hget & Hgen & Hdis) Hl [ts Hts]. unfold run_step.
  erewrite bind_returns by (apply getattr_live; exact Hl).
  destruct (do_get_model_spec (model a) l a s Hl)
    as (s0 & out0 & Hgm & Hw0 & Hev0).
  destruct (Hget (model a) (world s)) as [w0 Hret].
  rewrite Hret in Hw0. injection Hw0 as _ <-.
  pose proof (evolves_lookup_nil _ _ _ _ _ Hl Hev0) as Hl0.
  erewrite bind_returns by exact Hgm.
  do 2 (erewrite bind_returns by (apply getattr_live; exact Hl0)).
  rewrite Hts. erewrite bind_returns by reflexivity.
  destruct (do_generate_spec (model a) (messages a) (Some (ts ++ [_end_run]))
              l a s0 Hl0) as (s1 & out & Hg & Hw1 & Hev1).
  destruct (Hgen (model a) (messages a) (Some (ts ++ [_end_run])) (world s0))
    as (w1 & o & Hret1).
  rewrite Hret1 in Hw1. injection Hw1 as _ <-.
  pose proof (evolves_lookup_nil _ _ _ _ _ Hl0 Hev1) as Hl1.
  erewrite bind_returns by exact Hg.
  destruct (messages_extend_live l a [MessageAssistant (message o)] s1 Hl1)
    as (s2 & Hm & Hev2).
  erewrite bind_returns by exact Hm.
  pose proof (evolves_lookup _ _ _ _ _ _ Hl1 Hev2) as Hl2.
  destruct (truthy (tool_calls (message o))); [|by eexists].
  erewrite bind_returns by (apply getattr_live; exact Hl2).
  cbn [tools with_messages]. rewrite Hts.
  erewrite bind_returns by reflexivity.
  destruct (do_call_tools_spec (message o) (ts ++ [_end_run]) l _ s2 Hl2)
    as (s3 & out & Hc & Hw3 & Hev3).
  destruct (Hdis (message o) (ts ++ [_end_run]) (world s2))
    as (w3 & results & Hret3).
  rewrite Hret3 in Hw3. injection Hw3 as _ <-.
  pose proof (evolves_lookup_nil _ _ _ _ _ Hl2 Hev3) as Hl3.
  erewrite bind_returns by exact Hc.
  destruct (messages_extend_live l _ (map MessageTool results) s3 Hl3)
    as (s4 & Hm4 & Hev4).
  erewrite bind_returns by exact Hm4. by eexists.
Qed.

(** With collaborators that never fail, a loop over at least one index
    on an object with a list of tools is left normally, with the loop
    variable bound. *)
Lemma run_loop_returns l indices :
  forall a steps s,
    reliable -> heap s !! l = Some a -> is_Some (tools a) ->
    indices <> [] \/ is_Some steps ->
    exists i, snd (run_loop (Some l) indices steps s) = Returns (Some i).
Proof.
  induction indices as [|i rest IH]; intros a steps s Hrel Hl Hts Hbound.
  - destruct Hbound as [|[k ->]]; [done | by exists k].
  - cbn [run_loop].
    destruct (run_step_returns l a s Hrel Hl Hts) as [b Hb].
    destruct (run_step_spec l a s Hl) as (ms & evs & Hev & _ & _).
    destruct (run_step (Some l) s) as [s1 r] eqn:Hstep.
    cbn [fst snd] in Hb, Hev. subst r.
    erewrite bind_returns by exact Hstep.
    destruct b; [by exists i|].
    pose proof (evolves_lookup _ _ _ _ _ _ Hl Hev) as Hl1.
    apply (IH _ (Some i) s1 Hrel Hl1 Hts). right. by eexists.
Qed.

Lemma _run_logic_returns l a instructions s :
  reliable -> heap s !! l = Some a -> is_Some (tools a) ->
  1 <= max_steps a ->
  exists out, snd (_run_logic (Some l) instructions s) = Returns out.
Proof.
  intros Hrel Hl Hts Hpos. unfold _run_logic.
  destruct (messages_extend_live l a [ChatMessageUser instructions] s Hl)
    as (s1 & Hm & Hev1).
  erewrite bind_returns by exact Hm.
  pose proof (evolves_lookup _ _ _ _ _ _ Hl Hev1) as Hl1.
  erewrite bind_returns by (apply getattr_live; exact Hl1).
  cbn [max_steps with_messages].
  destruct (run_loop_returns l (range (max_steps a)) _ None s1 Hrel Hl1 Hts)
    as [i Hi].
  { left. intros Hnil. apply (f_equal length) in Hnil.
    rewrite range_length in Hnil. cbn in Hnil. lia. }
  destruct (run_loop_spec l _ (range (max_steps a)) None s1 Hl1)
    as (ms & evs & Hev2 & _ & _).
  destruct (run_loop (Some l) (range (max_steps a)) None s1)
    as [s2 r] eqn:Hloop.
  cbn [fst snd] in Hi, Hev2. subst r.
  erewrite bind_returns by exact Hloop.
  pose proof (evolves_lookup _ _ _ _ _ _ Hl1 Hev2) as Hl2.
  erewrite bind_returns by (apply _update_store_live; exact Hl2).
  by eexists.
Qed.
End Reliable.

(** ** The status text *)
Section StatusText.

Lemma string_app_length s1 s2 :
  String.length (s1 +:+ s2) = (String.length s1 + String.length s2)%nat.
Proof.
  induction s1 as [|c s1 IH]; [done|].
  change (String c s1 +:+ s2) with (String c (s1 +:+ s2)).
  cbn. by rewrite IH.
Qed.

Lemma string_app_inv_tail s1 :
  forall s2 t, s1 +:+ t = s2 +:+ t -> s1 = s2.
Proof.
  induction s1 as [|c s1 IH]; intros [|c' s2] t Heq; [done | | |].
  - apply (f_equal String.length) in Heq.
    rewrite !string_app_length in Heq. cbn in Heq. lia.
  - apply (f_equal String.length) in Heq.
    rewrite !string_app_length in Heq. cbn in Heq. lia.
  - change (String c (s1 +:+ t) = String c' (s2 +:+ t)) in Heq.
    injection Heq as -> Heq. f_equal. by eapply IH.
Qed.

Lemma str_int_inj i j : str_int i = str_int j -> i = j.
Proof.
  unfold str_int. intros Heq.
  assert (forall n, Z.to_int n <> Pos Nil /\ Z.to_int n <> Neg Nil) as Hnn.
  { intros [|p|p]; cbn; split; try done; intros [= Hp];
      by apply DecimalPos.Unsigned.to_uint_nonnil in Hp. }
  apply DecimalZ.to_int_inj.
  assert (Some (Z.to_int i) = Some (Z.to_int j)) as [= ->]; [|done].
  rewrite <- (NilZero.isi (Z.to_int i)) by apply Hnn.
  rewrite <- (NilZero.isi (Z.to_int j)) by apply Hnn.
  by rewrite Heq.
Qed.

(** Different step numbers give different status texts. *)
Lemma status_inj i j : status i = status j -> i = j.
Proof.
  unfold status. intros Heq.
  apply String.app_inj in Heq. apply string_app_inv_tail in Heq.
  by apply str_int_inj.
Qed.
End StatusText.

(** ** The run loop: budget, termination and the reported step *)
Section RunClaims.
Context `{H : Harness}.


(** C3: the status string of a run that returns is the text
    ["Sub agent ran for k steps. You can now ask it questions."] where
    [k] is the 0-based index of the last executed step, one less than the
    number of steps (model invocations) executed: [max_steps - 1] when no
    termination result was seen.  Different indices give different
    texts.  With collaborators that do not fail, a list of tools and a
    budget of at least one step, the run does return. *)
Theorem status_reports_last_step_index l a instructions s :
  heap s !! l = Some a ->
  exists evs,
    log (fst (_run_logic (Some l) instructions s)) = log s ++ evs
    /\ (forall out,
           snd (_run_logic (Some l) instructions s) = Returns out ->
           (1 <= invocations evs)%nat
           /\ out = "Sub agent ran for "
                    +:+ str_int (Z.of_nat (invocations evs) - 1)
                    +:+ " steps. You can now ask it questions."
           /\ (no_end evs ->
               out = "Sub agent ran for " +:+ str_int (max_steps a - 1)
                     +:+ " steps. You can now ask it questions."))
    /\ (forall i j,
           "Sub agent ran for " +:+ str_int i
           +:+ " steps. You can now ask it questions."
           = "Sub agent ran for " +:+ str_int j
             +:+ " steps. You can now ask it questions." ->
           i = j)
    /\ (reliable -> is_Some (tools a) -> 1 <= max_steps a ->
        exists out,
          snd (_run_logic (Some l) instructions s) = Returns out).
Proof.
  intros Hl.
  pose proof (_run_logic_returns l a instructions s) as Htotal.
  destruct (_run_logic_spec l a instructions s Hl)
    as (ms & evs & r & _ & _ & Hlog & _ & Hshape & Hj & Hres).
  exists evs. split; [exact Hlog|].
  pose proof (loop_shape_outcome _ _ _ _ _ _ Hshape) as Hout.
  split; [|split; [exact status_inj | intros Hrel; by apply Htotal]].
  rewrite Hres. clear Hres Hlog Htotal.
  intros out Hret. destruct r as [st|e]; [|discriminate Hret].
  cbn in Hout.
  destruct Hout as [(Hne & Hn & ->)
                   | (pre & ev & before & i & after
                      & -> & Hpre & Hev & Hidx & Hn & ->)].
  - rewrite range_length in Hn.
    destruct (Z_lt_le_dec (max_steps a) 1) as [Hlt|Hpos].
    { unfold range in Hret.
      replace (Z.to_nat (max_steps a)) with O in Hret by lia.
      discriminate Hret. }
    unfold last_index in Hret. rewrite (range_last _ Hpos) in Hret.
    cbn in Hret. injection Hret as <-. fold (status (max_steps a - 1)).
    fold (status (Z.of_nat (invocations evs) - 1)).
    split; [lia|]. split; [f_equal; lia | done].
  - apply range_split in Hidx as ->. cbn in Hret. injection Hret as <-.
    fold (status (Z.of_nat (invocations (pre ++ [ev])) - 1)).
    split; [lia|]. split; [f_equal; lia|].
    intros Hne. by destruct (no_end_split _ _ _ Hne).
Qed.
End RunClaims.

(** ** Registry lookups *)
Section Registry.
Context `{H : Harness}.

Lemma store_get_spec d0 s :
  store_get d0 s = (s, Returns (default d0 (sub_agents s))).
Proof. unfold store_get. by destruct (sub_agents s). Qed.

Lemma _get_agent_known id l s :
  dict_get id (default [] (sub_agents s)) = Some l ->
  _get_agent (Some id) s = (s, Returns (Some l)).
Proof.
  intros Hid. unfold _get_agent.
  erewrite bind_returns by apply store_get_spec.
  erewrite bind_returns by reflexivity.
  unfold dict_contains, dict_getitem. rewrite Hid. reflexivity.
Qed.

Lemma _get_agent_unknown id s :
  dict_get id (default [] (sub_agents s)) = None ->
  _get_agent (Some id) s = (s, Returns None).
Proof.
  intros Hid. unfold _get_agent.
  erewrite bind_returns by apply store_get_spec.
  erewrite bind_returns by reflexivity.
  unfold dict_contains. rewrite Hid. reflexivity.
Qed.

Lemma dict_get_head (k : string) (l : loc) (d : dict loc) :
  dict_get k ((k, l) :: d) = Some l.
Proof. cbn. by rewrite String.eqb_refl. Qed.

Lemma _get_agent_default k l d s :
  sub_agents s = Some ((k, l) :: d) ->
  _get_agent None s = (s, Returns (Some l)).
Proof.
  intros Hs. unfold _get_agent.
  erewrite bind_returns by apply store_get_spec.
  rewrite Hs. cbn [default from_option id].
  erewrite bind_returns by reflexivity.
  unfold dict_contains, dict_getitem. rewrite dict_get_head. reflexivity.
Qed.

Lemma _get_agent_empty s :
  default [] (sub_agents s) = [] ->
  _get_agent None s = (s, Raises IndexError).
Proof.
  intros Hs. unfold _get_agent.
  erewrite bind_returns by apply store_get_spec.
  rewrite Hs. reflexivity.
Qed.


Lemma do_get_model_eq m s w out :
  get_model m (world s) = (w, out) ->
  do_get_model m s = (set_world_only w s, out).
Proof. intros Hg. unfold do_get_model. by rewrite Hg. Qed.


Lemma messages_extend_eq l a ms s :
  heap s !! l = Some a ->
  messages_extend (Some l) ms s =
    (set_heap (<[l := with_messages a (messages a ++ ms)]> (heap s)) s,
     Returns tt).
Proof. intros Hl. unfold messages_extend. by rewrite Hl. Qed.

Lemma lookup_set_heap l (a a' : SubAgent) s :
  heap s !! l = Some a ->
  heap (set_heap (<[l := a']> (heap s)) s) !! l = Some a'.
Proof.
  intros Hl. cbn. apply list_lookup_insert_eq. by eapply lookup_lt_Some.
Qed.
End Registry.

(** ** Failure, missing tools and the chat protocol *)
Section StateClaims.
Context `{H : Harness}.



(** C5: a chat whose model call returns, the lookup of the model and
    then its invocation, appends the question as a user message and then
    the model's assistant message, calls the model once on that history
    with no tools argument and dispatches nothing, rebinds the object's
    id in the registry, and returns the assistant message's text. *)
Theorem chat_appends_question_and_answer l a question s w0 w o :
  heap s !! l = Some a ->
  get_model (model a) (world s) = (w0, Returns tt) ->
  generate (model a) (messages a ++ [ChatMessageUser question]) None
    w0 = (w, Returns o) ->
  _chat_logic (Some l) question s =
    ({| heap :=
          <[l := with_messages a
                   (messages a ++ [ChatMessageUser question;
                                   MessageAssistant (message o)])]>
            (heap s);
        _id_counter := _id_counter s;
        sub_agents :=
          Some (dict_setitem (agent_id a) l (default [] (sub_agents s)));
        world := w;
        log := log s ++
               [EvGenerate (model a)
                  (messages a ++ [ChatMessageUser question]) None
                  (Returns o)] |},
     Returns (text (message o))).
Proof.
  intros Hl Hgm Hgen. unfold _chat_logic.
  erewrite bind_returns by (apply messages_extend_eq, Hl).
  pose proof (lookup_set_heap l a
                (with_messages a (messages a ++ [ChatMessageUser question]))
                s Hl) as Hl1.
  erewrite bind_returns by (apply getattr_live; exact Hl1).
  cbn [model with_messages].
  erewrite bind_returns by (apply do_get_model_eq; exact Hgm).
  erewrite bind_returns by (apply getattr_live; exact Hl1).
  cbn [messages with_messages].
  erewrite bind_returns.
  2:{ unfold do_generate. cbn [world set_world_only]. by rewrite Hgen. }
  erewrite bind_returns by (apply messages_extend_eq; exact Hl1).
  erewrite bind_returns.
  2:{ apply _update_store_live.
      cbn [heap set_heap set_world set_world_only].
      rewrite list_insert_insert_eq.
      apply list_lookup_insert_eq. by eapply lookup_lt_Some. }
  cbn. rewrite list_insert_insert_eq, <- app_assoc. reflexivity.
Qed.
End StateClaims.

(** ** The tool surface and resolution *)
Section SurfaceClaims.
Context `{H : Harness}.

Lemma id_items_live objs s :
  Forall (live s) objs ->
  id_items objs s = (s, Returns (items_of s objs)).
Proof.
  induction 1 as [|l objs [a Hl] _ IH]; [done|].
  cbn [id_items].
  erewrite bind_returns by (apply getattr_live; exact Hl).
  erewrite bind_returns by exact IH.
  unfold items_of. cbn [omap list_omap]. by rewrite Hl.
Qed.

Lemma init_sub_agents_single l s :
  live s l ->
  init_sub_agents [l] s =
    (set_sub_agents (dict_of_items (items_of s [l])) s,
     Returns (Some [sub_agent_specs true; run_sub_agent true;
                    chat_with_sub_agent true])).
Proof.
  intros Hl. unfold init_sub_agents.
  change (Z.of_nat (length [l])) with 1. cbv zeta.
  change (1 <? 1) with false. cbv iota.
  erewrite bind_returns by (apply id_items_live; by repeat constructor).
  reflexivity.
Qed.

Lemma init_sub_agents_multi objs s :
  (2 <= length objs)%nat ->
  Forall (live s) objs ->
  init_sub_agents objs s =
    (set_sub_agents (dict_of_items (items_of s objs)) s,
     Returns (Some [sub_agent_specs false; run_sub_agent false;
                    chat_with_sub_agent false])).
Proof.
  intros Hlen Hlive. unfold init_sub_agents.
  destruct (Z.ltb_spec (Z.of_nat (length objs)) 1) as [Hlt|_]; [lia|].
  erewrite bind_returns by (apply id_items_live; exact Hlive).
  unfold bind, store_set.
  destruct (Z.gtb_spec (Z.of_nat (length objs)) 1) as [_|Hle]; [done | lia].
Qed.

(** C6: no objects give no tools and leave the store alone; one object
    gives the three single-mode tools, whose [run] and [chat] closures
    have no [sub_agent_id] parameter; two or more give the three
    multi-mode tools, whose [run] and [chat] closures take
    [sub_agent_id] first.  The shape belongs to the closure: whatever
    the registry holds later, a multi-mode closure called without an id
    and a single-mode closure called with one are arity errors. *)
Theorem tool_surface_by_cardinality objs s :
  Forall (live s) objs ->
  match objs with
  | [] => init_sub_agents objs s = (s, Returns (Some []))
  | [_] =>
      init_sub_agents objs s =
        (set_sub_agents (dict_of_items (items_of s objs)) s,
         Returns (Some [sub_agent_specs true; run_sub_agent true;
                        chat_with_sub_agent true]))
  | _ =>
      init_sub_agents objs s =
        (set_sub_agents (dict_of_items (items_of s objs)) s,
         Returns (Some [sub_agent_specs false; run_sub_agent false;
                        chat_with_sub_agent false]))
  end
  /\ parameters (run_sub_agent true) = ["instructions"]
  /\ parameters (chat_with_sub_agent true) = ["question"]
  /\ parameters (run_sub_agent false) = ["sub_agent_id"; "instructions"]
  /\ parameters (chat_with_sub_agent false) = ["sub_agent_id"; "question"]
  /\ (forall s' x,
         call (run_sub_agent false) [x] s' = (s', Raises TypeError)
         /\ call (chat_with_sub_agent false) [x] s' = (s', Raises TypeError))
  /\ (forall s' id x,
         call (run_sub_agent true) [id; x] s' = (s', Raises TypeError)
         /\ call (chat_with_sub_agent true) [id; x] s'
            = (s', Raises TypeError)).
Proof.
  intros Hlive. split; [|by repeat split].
  destruct objs as [|l [|l' objs]].
  - reflexivity.
  - apply init_sub_agents_single. by apply Forall_cons in Hlive as [? _].
  - apply init_sub_agents_multi; [cbn; lia | exact Hlive].
Qed.

Lemma _run_logic_None instructions s :
  _run_logic None instructions s = (s, Raises AttributeError).
Proof. reflexivity. Qed.

Lemma _chat_logic_None question s :
  _chat_logic None question s = (s, Raises AttributeError).
Proof. reflexivity. Qed.

Lemma dict_contains_false (id : string) (d : dict loc) :
  dict_contains id d = false -> dict_get id d = None.
Proof. unfold dict_contains. by destruct (dict_get id d). Qed.

Lemma dict_setitem_other (k k' : string) (l l' : loc) (d : dict loc) :
  k' <> k -> dict_setitem k' l' ((k, l) :: d) = (k, l) :: dict_setitem k' l' d.
Proof.
  intros Hne. cbn. destruct (String.eqb_spec k' k); [done | reflexivity].
Qed.

Lemma fold_setitem_head items :
  forall (k : string) (l : loc) (d : dict loc),
    k ∉ map fst items ->
    fold_left (fun d kv => dict_setitem (fst kv) (snd kv) d) items
      ((k, l) :: d)
    = (k, l) :: fold_left (fun d kv => dict_setitem (fst kv) (snd kv) d)
                  items d.
Proof.
  induction items as [|[k' l'] items IH]; intros k l d Hk; [done|].
  cbn [fold_left fst snd]. cbn in Hk.
  apply not_elem_of_cons in Hk as [Hne Hk].
  rewrite dict_setitem_other by done. by apply IH.
Qed.

(** C7: with no id the object at the first position of the registry is
    returned, which after a build over objects with distinct ids is the
    first object of the list; an id that is not registered gives [None]
    and no object; and [None] makes the run and chat logic, and so the
    multi-mode tools, raise [AttributeError]. *)
Theorem resolve_default_and_unknown s :
  (forall k l d,
      sub_agents s = Some ((k, l) :: d) ->
      _get_agent None s = (s, Returns (Some l)))
  /\ (forall l a objs,
         heap s !! l = Some a ->
         Forall (live s) objs ->
         agent_id a ∉ map fst (items_of s objs) ->
         _get_agent None (fst (init_sub_agents (l :: objs) s))
         = (fst (init_sub_agents (l :: objs) s), Returns (Some l)))
  /\ (forall id,
         dict_contains id (default [] (sub_agents s)) = false ->
         _get_agent (Some id) s = (s, Returns None)
         /\ (forall x,
                call (run_sub_agent false) [id; x] s
                = (s, Raises AttributeError)
                /\ call (chat_with_sub_agent false) [id; x] s
                   = (s, Raises AttributeError)))
  /\ (forall x,
         _run_logic None x s = (s, Raises AttributeError)
         /\ _chat_logic None x s = (s, Raises AttributeError)).
Proof.
  split; [intros k l d; apply _get_agent_default|].
  split; [|split].
  - intros l a objs Hl Hlive Hfresh.
    assert (Forall (live s) (l :: objs)) as Hall.
    { constructor; [by eexists | done]. }
    assert (exists r,
               init_sub_agents (l :: objs) s =
                 (set_sub_agents
                    (dict_of_items (items_of s (l :: objs))) s, r))
      as [r ->].
    { destruct objs as [|l' objs].
      - eexists. by apply init_sub_agents_single; eexists.
      - eexists. apply init_sub_agents_multi; [cbn; lia | done]. }
    cbn [fst]. eapply _get_agent_default. cbn [sub_agents set_sub_agents].
    f_equal. unfold items_of. cbn [omap list_omap]. rewrite Hl.
    cbn [fmap option_fmap option_map].
    unfold dict_of_items. cbn [fold_left fst snd dict_setitem].
    by apply fold_setitem_head.
  - intros id Hid. apply dict_contains_false in Hid.
    pose proof (_get_agent_unknown id s Hid) as Hnone.
    split; [exact Hnone|]. intros x. cbn [call].
    by rewrite !(bind_returns _ _ _ _ _ Hnone).
  - intros x. by split.
Qed.

(** C10: with no id, resolution raises [IndexError] exactly when the
    registry is unset or empty; with at least one entry it returns the
    first one. *)
Theorem default_resolution_needs_an_entry s :
  default [] (sub_agents s) = [] ->
  _get_agent None s = (s, Raises IndexError)
  /\ forall s',
      _get_agent None s' = (s', Raises IndexError) <->
      default [] (sub_agents s') = [].
Proof.
  intros Hs. split; [by apply _get_agent_empty|].
  intros s'. split; [|by apply _get_agent_empty].
  intros Hraise.
  destruct (sub_agents s') as [[|[k l] d]|] eqn:Hs'; [done | | done].
  exfalso. rewrite (_get_agent_default k l d s' Hs') in Hraise.
  discriminate Hraise.
Qed.

(** The multi-mode listing joins what iterating the registry yields,
    which is its keys. *)
Lemma list_specs_multi_lists_keys s :
  call (sub_agent_specs false) [] s =
    (s, Returns (String.concat nl (dict_keys (default [] (sub_agents s))))).
Proof.
  cbn [call]. erewrite bind_returns by apply store_get_spec.
  unfold str_str, iter_dict. by rewrite map_id.
Qed.
End SurfaceClaims.

(** C1 on the code: over two default objects the multi-mode listing is the
    two ids on two lines, where the specification's listing and the
    single-mode tool give descriptions. *)
Theorem list_specs_multi_returns_ids_only :
  snd (call (sub_agent_specs false) [] two_defaults)
  = Returns ("001" +:+ nl +:+ "002")
  /\ spec_list_specs two_defaults
     = "ID: 001" +:+ nl +:+ "Model: openai/gpt-4o-mini-2024-07-18-free"
       +:+ nl +:+ "Description: " +:+ nl +:+ "Max Steps: 10" +:+ nl +:+ nl
       +:+ "ID: 002" +:+ nl +:+ "Model: openai/gpt-4o-mini-2024-07-18-free"
       +:+ nl +:+ "Description: " +:+ nl +:+ "Max Steps: 10" +:+ nl
  /\ snd (call (sub_agent_specs false) [] two_defaults)
     <> Returns (spec_list_specs two_defaults).
Proof.
  split; [by vm_compute|]. split; [by vm_compute|].
  vm_compute. discriminate.
Qed.

(** ** Decimal formatting of the counter *)
Section Formatting.

Lemma length_zeros k : String.length (zeros k) = k.
Proof. induction k as [|k IH]; [done|]. cbn. by rewrite IH. Qed.

Lemma append_cons c s1 s2 : String c s1 +:+ s2 = String c (s1 +:+ s2).
Proof. reflexivity. Qed.

Lemma length_append s1 s2 :
  String.length (s1 +:+ s2) = (String.length s1 + String.length s2)%nat.
Proof.
  induction s1 as [|c s1 IH]; [done|].
  rewrite append_cons. cbn. by rewrite IH.
Qed.

Lemma length_zfill width s :
  (width <= String.length (zfill width s))%nat.
Proof. unfold zfill. rewrite length_append, length_zeros. lia. Qed.

Lemma to_uint_nonnil n : N.to_uint n <> Nil.
Proof.
  destruct n as [|p]; [done|]. apply DecimalPos.Unsigned.to_uint_nonnil.
Qed.

Lemma digits_nonempty n : digits n <> "".
Proof.
  unfold digits. pose proof (to_uint_nonnil n) as Hn.
  destruct (N.to_uint n); done.
Qed.

Lemma parse_digits n :
  NilEmpty.uint_of_string (digits n) = Some (N.to_uint n).
Proof.
  unfold digits. pose proof (to_uint_nonnil n) as Hn.
  rewrite <- (NilEmpty.usu (N.to_uint n)).
  destruct (N.to_uint n); done.
Qed.

(** Leading zeros do not change the number a string denotes. *)
Lemma parse_zeros k s d :
  NilEmpty.uint_of_string s = Some d ->
  exists d', NilEmpty.uint_of_string (zeros k +:+ s) = Some d'
             /\ N.of_uint d' = N.of_uint d.
Proof.
  intros Hs. induction k as [|k (d' & Hd' & Heq)]; [by exists d|].
  exists (D0 d'). cbn [zeros]. rewrite append_cons.
  cbn [NilEmpty.uint_of_string]. by rewrite Hd'.
Qed.

Lemma int_of_id_format_03d n :
  0 <= n -> int_of_id (format_03d n) = Some n.
Proof.
  intros Hn. unfold format_03d.
  destruct (Z.ltb_spec n 0) as [|_]; [lia|].
  unfold int_of_id, zfill.
  destruct (parse_zeros (3 - String.length (digits (Z.to_N n)))
              (digits (Z.to_N n)) _ (parse_digits (Z.to_N n)))
    as (d' & Hd' & Heq).
  assert (NilZero.uint_of_string
            (zeros (3 - String.length (digits (Z.to_N n)))
             +:+ digits (Z.to_N n)) = Some d') as ->.
  { pose proof (digits_nonempty (Z.to_N n)) as Hne.
    unfold NilZero.uint_of_string.
    destruct (zeros (3 - String.length (digits (Z.to_N n)))) eqn:Hz;
      [|by rewrite append_cons].
    change ("" +:+ digits (Z.to_N n)) with (digits (Z.to_N n)).
    by destruct (digits (Z.to_N n)). }
  rewrite Heq, DecimalN.Unsigned.of_to. f_equal. lia.
Qed.

Lemma format_03d_inj n m :
  0 <= n -> 0 <= m -> format_03d n = format_03d m -> n = m.
Proof.
  intros Hn Hm Heq.
  pose proof (int_of_id_format_03d n Hn) as Hn'.
  rewrite Heq, (int_of_id_format_03d m Hm) in Hn'. congruence.
Qed.

Lemma length_format_03d n :
  0 <= n -> (3 <= String.length (format_03d n))%nat.
Proof.
  intros Hn. unfold format_03d.
  destruct (Z.ltb_spec n 0) as [|_]; [lia|]. apply length_zfill.
Qed.

(** Up to 999 the minimum width is the width. *)
Lemma length_format_03d_small n :
  0 <= n <= 999 -> String.length (format_03d n) = 3%nat.
Proof.
  intros Hn.
  assert (forallb
            (fun k => Nat.eqb (String.length (format_03d (Z.of_nat k))) 3)
            (seq 0 1000) = true) as Hall by (vm_compute; reflexivity).
  rewrite forallb_forall in Hall.
  specialize (Hall (Z.to_nat n)).
  rewrite Z2Nat.id in Hall by lia.
  apply Nat.eqb_eq, Hall, in_seq. lia.
Qed.
End Formatting.

(** ** The id counter *)
Section Counter.
Context `{H : Harness}.

Lemma kc_ret {A} (a : A) : keeps_counter (ret a).
Proof. by intros s. Qed.

Lemma kc_raise {A} e : keeps_counter (@raise _ A e).
Proof. by intros s. Qed.

Lemma kc_bind {A B} (c : M A) (k : A -> M B) :
  keeps_counter c -> (forall a, keeps_counter (k a)) ->
  keeps_counter (bind c k).
Proof.
  intros Hc Hk s. unfold bind. specialize (Hc s).
  destruct (c s) as [s' [a|e]]; cbn [fst] in *; [|done].
  by rewrite Hk.
Qed.

Lemma kc_getattr {A} o (f : SubAgent -> A) : keeps_counter (getattr o f).
Proof.
  intros s. unfold getattr. destruct o as [l|]; [|done].
  by destruct (heap s !! l).
Qed.

Lemma kc_messages_extend o ms : keeps_counter (messages_extend o ms).
Proof.
  intros s. unfold messages_extend. destruct o as [l|]; [|done].
  by destruct (heap s !! l).
Qed.

Lemma kc_store_get d : keeps_counter (store_get d).
Proof. intros s. unfold store_get. by destruct (sub_agents s). Qed.

Lemma kc_store_set d : keeps_counter (store_set d).
Proof. by intros s. Qed.

Lemma kc_do_get_model m : keeps_counter (do_get_model m).
Proof.
  intros s. unfold do_get_model. by destruct (get_model m (world s)).
Qed.

Lemma kc_do_generate m input offered :
  keeps_counter (do_generate m input offered).
Proof.
  intros s. unfold do_generate.
  by destruct (generate m input offered (world s)).
Qed.

Lemma kc_do_call_tools msg offered :
  keeps_counter (do_call_tools msg offered).
Proof.
  intros s. unfold do_call_tools.
  by destruct (call_tools msg offered (world s)).
Qed.

Create HintDb kc discriminated.
Hint Resolve kc_ret kc_raise kc_getattr kc_messages_extend kc_store_get
  kc_store_set kc_do_get_model kc_do_generate kc_do_call_tools : kc.

(** Decomposes a computation along its binds and case analyses. *)
Ltac kc :=
  repeat first
    [ solve [auto with kc]
    | apply kc_bind; [|intros ?]
    | match goal with
      | |- keeps_counter (match ?x with _ => _ end) => destruct x
      end ].

Lemma kc__get_agent sub_agent_id : keeps_counter (_get_agent sub_agent_id).
Proof. unfold _get_agent, first_key, dict_getitem. kc. Qed.

Lemma kc__update_store sub_agent : keeps_counter (_update_store sub_agent).
Proof. unfold _update_store. kc. Qed.

Lemma kc_run_step sub_agent : keeps_counter (run_step sub_agent).
Proof. unfold run_step, with_end_run. kc. Qed.

Hint Resolve kc__get_agent kc__update_store kc_run_step : kc.

Lemma kc_run_loop sub_agent indices :
  forall steps, keeps_counter (run_loop sub_agent indices steps).
Proof.
  induction indices as [|i rest IH]; intros steps; cbn [run_loop]; kc.
Qed.

Hint Resolve kc_run_loop : kc.

Lemma kc__run_logic sub_agent instructions :
  keeps_counter (_run_logic sub_agent instructions).
Proof. unfold _run_logic. kc. Qed.

Lemma kc__chat_logic sub_agent question :
  keeps_counter (_chat_logic sub_agent question).
Proof. unfold _chat_logic. kc. Qed.

Hint Resolve kc__run_logic kc__chat_logic : kc.

Lemma kc_call t args : keeps_counter (call t args).
Proof. unfold call, str_of. kc. Qed.

Lemma kc_id_items objs : keeps_counter (id_items objs).
Proof. induction objs as [|l objs IH]; cbn [id_items]; kc. Qed.

Hint Resolve kc_id_items : kc.

Lemma kc_init_sub_agents objs : keeps_counter (init_sub_agents objs).
Proof. unfold init_sub_agents. kc. Qed.

(** One action moves the counter by one exactly when it constructs an
    object with the id omitted, and that object's id is the counter's
    old value, formatted. *)
Lemma perform_spec act s :
  _id_counter (fst (perform act s))
    = (if is_auto act then _id_counter s + 1 else _id_counter s)
  /\ snd (perform act s)
     = (if is_auto act then Some (format_03d (_id_counter s)) else None).
Proof.
  destruct act as [args|objs|single which args]; cbn [perform is_auto].
  - unfold SubAgent_init.
    destruct (arg_agent_id args) as [id|]; cbn; [done|].
    by rewrite last_snoc.
  - split; [apply kc_init_sub_agents | done].
  - split; [apply kc_call | done].
Qed.

Lemma perform_all_spec acts :
  forall s,
    _id_counter (fst (perform_all acts s))
      = _id_counter s + Z.of_nat (auto_count acts)
    /\ snd (perform_all acts s)
       = map (fun k => format_03d (_id_counter s + Z.of_nat k))
           (seq 0 (auto_count acts)).
Proof.
  induction acts as [|act acts IH]; intros s.
  - cbn. split; [lia | done].
  - cbn [perform_all auto_count].
    destruct (perform_spec act s) as [Hc Hid].
    destruct (perform act s) as [s1 id]; cbn [fst snd] in Hc, Hid.
    destruct (IH s1) as [Hc' Hids].
    destruct (perform_all acts s1) as [s2 ids]; cbn [fst snd] in *.
    subst id ids. rewrite Hc', Hc.
    destruct (is_auto act).
    + split; [lia|]. cbn [seq map]. f_equal; [f_equal; lia|].
      rewrite <- seq_shift, map_map. apply map_ext. intros k. f_equal. lia.
    + done.
Qed.
End Counter.

Section CounterClaims.
Context `{H : Harness}.

Lemma auto_count_app acts acts' :
  auto_count (acts ++ acts') = (auto_count acts + auto_count acts')%nat.
Proof.
  induction acts as [|act acts IH]; [done|].
  cbn. destruct (is_auto act); cbn; lia.
Qed.

Lemma nth_auto_id n i a :
  map (fun k => format_03d (Z.of_nat (S k))) (seq 0 n) !! i = Some a ->
  a = format_03d (Z.of_nat (S i)) /\ (i < n)%nat.
Proof.
  intros Hi. rewrite list_lookup_fmap in Hi.
  destruct (seq 0 n !! i) as [k|] eqn:Hk; [|done].
  apply lookup_seq in Hk as [-> Hlt]. cbn in Hi. split; [congruence | done].
Qed.

(** C8, as the code has it: in a process that interleaves constructions,
    builds of registries and tool calls, the ids given to the objects
    constructed with the id omitted are the decimal renderings of 1, 2,
    3, ... in construction order, starting at ["001"]; they are pairwise
    distinct and their values strictly increase; each has at least
    three characters, and exactly three for the first 999; the counter
    only grows, whatever registries are built in between. *)
Theorem auto_ids_count_up acts w :
  let ids := snd (perform_all acts (fresh w)) in
  ids = map (fun k => format_03d (Z.of_nat (S k))) (seq 0 (auto_count acts))
  /\ _id_counter (fst (perform_all acts (fresh w)))
     = 1 + Z.of_nat (auto_count acts)
  /\ (forall before after,
         acts = before ++ after ->
         _id_counter (fst (perform_all before (fresh w)))
         <= _id_counter (fst (perform_all acts (fresh w))))
  /\ NoDup ids
  /\ (forall i j a b,
         (i < j)%nat -> ids !! i = Some a -> ids !! j = Some b ->
         exists x y, int_of_id a = Some x /\ int_of_id b = Some y /\ x < y)
  /\ (forall i a,
         ids !! i = Some a ->
         (3 <= String.length a)%nat
         /\ ((i < 999)%nat -> String.length a = 3%nat))
  /\ (forall a, ids !! 0%nat = Some a -> a = "001").
Proof.
  cbv zeta. destruct (perform_all_spec acts (fresh w)) as [Hc Hids].
  cbn [_id_counter fresh] in Hc, Hids.
  assert (snd (perform_all acts (fresh w))
          = map (fun k => format_03d (Z.of_nat (S k)))
              (seq 0 (auto_count acts))) as ->.
  { rewrite Hids. apply map_ext. intros k. f_equal. lia. }
  split; [done|]. split; [exact Hc|]. split; [|split; [|split; [|split]]].
  - intros before after ->.
    destruct (perform_all_spec before (fresh w)) as [Hc' _].
    rewrite Hc, Hc', auto_count_app. cbn. lia.
  - apply NoDup_alt. intros i j a Hi Hj.
    apply nth_auto_id in Hi as [-> _]. apply nth_auto_id in Hj as [Heq _].
    apply format_03d_inj in Heq; lia.
  - intros i j a b Hlt Hi Hj.
    apply nth_auto_id in Hi as [-> _]. apply nth_auto_id in Hj as [-> _].
    exists (Z.of_nat (S i)), (Z.of_nat (S j)).
    rewrite !int_of_id_format_03d by lia. split; [done|]. split; [done | lia].
  - intros i a Hi. apply nth_auto_id in Hi as [-> _].
    split; [apply length_format_03d; lia|].
    intros Hlt. apply length_format_03d_small. lia.
  - intros a Hi. by apply nth_auto_id in Hi as [-> _].
Qed.
End CounterClaims.

(** C8 as stated fails at the thousandth construction: its id has four
    digits. *)
Lemma thousandth_id_has_four_digits :
  snd (perform_all thousand_defaults (@fresh scripted [])) !! 999%nat
  = Some "1000"
  /\ String.length "1000" <> 3%nat.
Proof. split; [by vm_compute | by cbn]. Qed.

(** ** The claims on the concrete scenarios *)

Lemma scripted_reliable : @reliable scripted.
Proof.
  split; [|split].
  - intros m w. by eexists.
  - intros m input offered w. destruct w as [|o w]; by eexists _, _.
  - intros msg offered w. by eexists _, _.
Defined.

(** Reads the calls of a run off the computed log of its final state. *)
Ltac pin_log Hlog :=
  match type of Hlog with
  | log _ = log ?s ++ ?evs =>
      let Hempty := fresh "Hempty" in
      assert (log s = []) as Hempty by (vm_compute; reflexivity);
      rewrite Hempty in Hlog; cbn [app] in Hlog; subst evs
  end.


Lemma status_reports_last_step_index_witness :
  (heap quiet_worker !! 0%nat = Some (object_at quiet_worker 0%nat)
   /\ snd (_run_logic (Some 0%nat) "go" quiet_worker)
      = Returns "Sub agent ran for 2 steps. You can now ask it questions."
   /\ exists evs,
       log (fst (_run_logic (Some 0%nat) "go" quiet_worker))
       = log quiet_worker ++ evs
       /\ invocations evs = 3%nat /\ no_end evs)
  /\ (heap late_worker !! 0%nat = Some (object_at late_worker 0%nat)
      /\ snd (_run_logic (Some 0%nat) "go" late_worker)
         = Returns "Sub agent ran for 1 steps. You can now ask it questions."
      /\ exists evs,
          log (fst (_run_logic (Some 0%nat) "go" late_worker))
          = log late_worker ++ evs
          /\ invocations evs = 2%nat)
  /\ (heap one_worker !! 0%nat = Some (object_at one_worker 0%nat)
      /\ snd (_run_logic (Some 0%nat) "go" one_worker)
         = Returns "Sub agent ran for 0 steps. You can now ask it questions."
      /\ exists evs,
          log (fst (_run_logic (Some 0%nat) "go" one_worker))
          = log one_worker ++ evs
          /\ invocations evs = 1%nat).
Proof.
  split; [|split].
  - assert (heap quiet_worker !! 0%nat = Some (object_at quiet_worker 0%nat))
      as Hl by (vm_compute; reflexivity).
    destruct (status_reports_last_step_index (H := scripted) 0%nat _ "go"
                quiet_worker Hl) as (evs & Hlog & Hret & _ & Htotal).
    destruct (Htotal scripted_reliable) as [out Hout];
      [by eexists | vm_compute; discriminate |].
    destruct (Hret out Hout) as (_ & Hstatus & _).
    assert (invocations evs = 3%nat) as Hn
      by (pin_log Hlog; vm_compute; reflexivity).
    split; [exact Hl|]. split.
    + rewrite Hout, Hstatus, Hn. reflexivity.
    + exists evs. split; [exact Hlog|]. split; [exact Hn|].
      pin_log Hlog. vm_compute. repeat constructor.
  - assert (heap late_worker !! 0%nat = Some (object_at late_worker 0%nat))
      as Hl by (vm_compute; reflexivity).
    destruct (status_reports_last_step_index (H := scripted) 0%nat _ "go"
                late_worker Hl) as (evs & Hlog & Hret & _ & Htotal).
    destruct (Htotal scripted_reliable) as [out Hout];
      [by eexists | vm_compute; discriminate |].
    destruct (Hret out Hout) as (_ & Hstatus & _).
    assert (invocations evs = 2%nat) as Hn
      by (pin_log Hlog; vm_compute; reflexivity).
    split; [exact Hl|]. split.
    + rewrite Hout, Hstatus, Hn. reflexivity.
    + exists evs. by split.
  - assert (heap one_worker !! 0%nat = Some (object_at one_worker 0%nat))
      as Hl by (vm_compute; reflexivity).
    destruct (status_reports_last_step_index (H := scripted) 0%nat _ "go"
                one_worker Hl) as (evs & Hlog & Hret & _ & Htotal).
    destruct (Htotal scripted_reliable) as [out Hout];
      [by eexists | vm_compute; discriminate |].
    destruct (Hret out Hout) as (_ & Hstatus & _).
    assert (invocations evs = 1%nat) as Hn
      by (pin_log Hlog; vm_compute; reflexivity).
    split; [exact Hl|]. split.
    + rewrite Hout, Hstatus, Hn. reflexivity.
    + exists evs. by split.
Defined.





Lemma chat_appends_question_and_answer_witness :
  exists a,
    heap two_defaults !! 1%nat = Some a
    /\ get_model (Harness := scripted) (model a) (world two_defaults)
       = ([], Returns tt)
    /\ generate (Harness := scripted) (model a)
         (messages a ++ [ChatMessageUser "Are you ready? Answer YES."]) None
         [] = ([], Returns (say "YES"))
    /\ snd (_chat_logic (Some 1%nat) "Are you ready? Answer YES." two_defaults)
       = Returns "YES"
    /\ (messages <$>
        heap (fst (_chat_logic (Some 1%nat) "Are you ready? Answer YES."
                     two_defaults)) !! 1%nat)
       = Some (messages a ++
               [ChatMessageUser "Are you ready? Answer YES.";
                MessageAssistant (message (say "YES"))]).
Proof.
  eexists. split; [vm_compute; reflexivity|]. split; [reflexivity|].
  split; [reflexivity|].
  match goal with
  | |- context [messages ?a ++ _] =>
      rewrite (chat_appends_question_and_answer (H := scripted) 1%nat a
                 "Are you ready? Answer YES." two_defaults [] []
                 (say "YES"));
        [|vm_compute; reflexivity | reflexivity | reflexivity]
  end.
  split; reflexivity.
Defined.

Lemma tool_surface_by_cardinality_witness :
  Forall (live two_defaults) [0; 1]%nat
  /\ init_sub_agents [0; 1]%nat two_defaults
     = (set_sub_agents
          (dict_of_items (items_of two_defaults [0; 1]%nat)) two_defaults,
        Returns (Some [sub_agent_specs false; run_sub_agent false;
                       chat_with_sub_agent false]))
  /\ parameters (run_sub_agent false) = ["sub_agent_id"; "instructions"].
Proof.
  assert (Forall (live two_defaults) [0; 1]%nat) as Hlive.
  { repeat constructor; eexists; vm_compute; reflexivity. }
  split; [exact Hlive|].
  destruct (tool_surface_by_cardinality (H := scripted) [0; 1]%nat
              two_defaults Hlive) as (Hbuild & _ & _ & Hrun & _).
  split; [exact Hbuild | exact Hrun].
Defined.

Lemma resolve_default_and_unknown_witness :
  sub_agents two_defaults = Some [("001", 0%nat); ("002", 1%nat)]
  /\ dict_contains "000" (default [] (sub_agents two_defaults)) = false
  /\ _get_agent None two_defaults = (two_defaults, Returns (Some 0%nat))
  /\ _get_agent (Some "000") two_defaults = (two_defaults, Returns None)
  /\ call (run_sub_agent false) ["000"; "go"] two_defaults
     = (two_defaults, Raises AttributeError).
Proof.
  assert (sub_agents two_defaults = Some [("001", 0%nat); ("002", 1%nat)])
    as Hreg by (vm_compute; reflexivity).
  assert (dict_contains "000" (default [] (sub_agents two_defaults)) = false)
    as Hunknown by (vm_compute; reflexivity).
  destruct (resolve_default_and_unknown (H := scripted) two_defaults)
    as (Hdefault & _ & Hmiss & _).
  destruct (Hmiss "000" Hunknown) as [Hnone Hfail].
  split; [exact Hreg|]. split; [exact Hunknown|].
  split; [exact (Hdefault _ _ _ Hreg)|]. split; [exact Hnone|].
  exact (proj1 (Hfail "go")).
Defined.

Lemma default_resolution_needs_an_entry_witness :
  default [] (sub_agents (@fresh scripted [])) = []
  /\ _get_agent None (@fresh scripted [])
     = (@fresh scripted [], Raises IndexError).
Proof.
  split; [reflexivity|].
  exact (proj1 (default_resolution_needs_an_entry (H := scripted)
                  (@fresh scripted []) eq_refl)).
Defined.

Lemma auto_ids_count_up_witness :
  snd (perform_all two_registries (@fresh scripted []))
  = ["001"; "002"; "003"; "004"]
  /\ NoDup (snd (perform_all two_registries (@fresh scripted []))).
Proof.
  destruct (auto_ids_count_up (H := scripted) two_registries [])
    as (Hids & _ & _ & Hnodup & _).
  split; [|exact Hnodup]. rewrite Hids. reflexivity.
Defined.


(** * Further properties of the module *)

(** ** Dictionary assignment and lookup *)
Section DictFacts.
Context {V : Type}.

Lemma dict_get_setitem_eq (k : string) (v : V) (d : dict V) :
  dict_get k (dict_setitem k v d) = Some v.
Proof.
  induction d as [|[k' v'] d IH]; cbn.
  - by rewrite String.eqb_refl.
  - destruct (String.eqb_spec k k') as [->|Hne]; cbn.
    + by rewrite String.eqb_refl.
    + destruct (String.eqb_spec k k'); [done | exact IH].
Qed.

Lemma dict_get_setitem_ne (k k' : string) (v : V) (d : dict V) :
  k' <> k -> dict_get k' (dict_setitem k v d) = dict_get k' d.
Proof.
  intros Hne. induction d as [|[k0 v0] d IH]; cbn.
  - destruct (String.eqb_spec k' k); [done | reflexivity].
  - destruct (String.eqb_spec k k0) as [->|Hne0]; cbn.
    + destruct (String.eqb_spec k' k0); [done | reflexivity].
    + destruct (String.eqb_spec k' k0); [reflexivity | exact IH].
Qed.

Lemma dict_get_None (k : string) (d : dict V) :
  dict_get k d = None <-> k ∉ dict_keys d.
Proof.
  induction d as [|[k' v'] d IH]; cbn.
  - split; [intros _; apply not_elem_of_nil | done].
  - rewrite not_elem_of_cons.
    destruct (String.eqb_spec k k') as [->|Hne]; [split; [done | tauto]|].
    rewrite IH. tauto.
Qed.

(** Assignment keeps the position of a key that is present and appends
    a key that is not. *)
Lemma dict_keys_setitem (k : string) (v : V) (d : dict V) :
  dict_keys (dict_setitem k v d)
  = if dict_contains k d then dict_keys d else dict_keys d ++ [k].
Proof.
  unfold dict_contains, dict_keys.
  induction d as [|[k' v'] d IH]; cbn; [done|].
  destruct (String.eqb_spec k k') as [->|Hne]; cbn; [done|].
  rewrite IH. by destruct (dict_get k d).
Qed.

Lemma dict_keys_setitem_NoDup (k : string) (v : V) (d : dict V) :
  NoDup (dict_keys d) -> NoDup (dict_keys (dict_setitem k v d)).
Proof.
  intros Hd. rewrite dict_keys_setitem. unfold dict_contains.
  destruct (dict_get k d) eqn:Hk; [done|].
  apply dict_get_None in Hk.
  apply NoDup_app. split; [done|]. split; [|apply NoDup_singleton].
  intros x Hx ->%list_elem_of_singleton. done.
Qed.

Lemma dict_get_app (k : string) (d d' : dict V) :
  dict_get k (d ++ d')
  = match dict_get k d with Some v => Some v | None => dict_get k d' end.
Proof.
  induction d as [|[k' v'] d IH]; cbn; [done|].
  by destruct (String.eqb k k').
Qed.

Lemma dict_get_elem_of (k : string) (v : V) (d : dict V) :
  NoDup (dict_keys d) -> (k, v) ∈ d -> dict_get k d = Some v.
Proof.
  induction d as [|[k' v'] d IH]; cbn; intros Hd Hin.
  - by apply elem_of_nil in Hin.
  - apply NoDup_cons in Hd as [Hk' Hd].
    apply elem_of_cons in Hin as [[= <- <-]|Hin].
    + by rewrite String.eqb_refl.
    + destruct (String.eqb_spec k k') as [->|_]; [|by apply IH].
      exfalso. apply Hk'. apply list_elem_of_fmap. by exists (k', v).
Qed.

Lemma fold_setitem_get (items : list (string * V)) :
  forall (k : string) (acc : dict V),
    dict_get k
      (fold_left (fun d kv => dict_setitem (fst kv) (snd kv) d) items acc)
    = match dict_get k (reverse items) with
      | Some v => Some v
      | None => dict_get k acc
      end.
Proof.
  induction items as [|[k' v'] items IH]; intros k acc; [done|].
  cbn [fold_left fst snd]. rewrite IH, reverse_cons, dict_get_app.
  destruct (dict_get k (reverse items)); [done|]. cbn.
  destruct (String.eqb_spec k k') as [->|Hne].
  - apply dict_get_setitem_eq.
  - by apply dict_get_setitem_ne.
Qed.

Lemma fold_setitem_NoDup (items : list (string * V)) :
  forall acc : dict V,
    NoDup (dict_keys acc) ->
    NoDup (dict_keys
             (fold_left (fun d kv => dict_setitem (fst kv) (snd kv) d)
                items acc)).
Proof.
  induction items as [|[k v] items IH]; intros acc Hacc; [done|].
  cbn [fold_left]. apply IH. by apply dict_keys_setitem_NoDup.
Qed.

Lemma dict_setitem_fresh (k : string) (v : V) (d : dict V) :
  k ∉ dict_keys d -> dict_setitem k v d = d ++ [(k, v)].
Proof.
  induction d as [|[k' v'] d IH]; cbn; [done|].
  rewrite not_elem_of_cons. intros [Hne Hk].
  destruct (String.eqb_spec k k'); [done|]. by rewrite IH.
Qed.

Lemma fold_setitem_distinct (items : list (string * V)) :
  forall acc : dict V,
    NoDup (dict_keys acc ++ map fst items) ->
    fold_left (fun d kv => dict_setitem (fst kv) (snd kv) d) items acc
    = acc ++ items.
Proof.
  induction items as [|[k v] items IH]; intros acc Hnd.
  - by rewrite app_nil_r.
  - cbn [fold_left fst snd]. cbn [map fst] in Hnd.
    assert (k ∉ dict_keys acc) as Hk.
    { apply NoDup_app in Hnd as (_ & Hdisj & _). intros Hin.
      apply (Hdisj k Hin). apply elem_of_cons. by left. }
    rewrite dict_setitem_fresh by done.
    rewrite IH; [by rewrite <- app_assoc|].
    unfold dict_keys. rewrite map_app. cbn [map fst].
    by rewrite <- app_assoc.
Qed.
End DictFacts.

(** ** Persisting and resolving *)
Section PersistResolve.
Context `{H : Harness}.

Lemma _get_agent_some id s :
  _get_agent (Some id) s
  = (s, Returns (dict_get id (default [] (sub_agents s)))).
Proof.
  destruct (dict_get id (default [] (sub_agents s))) as [l|] eqn:Hid.
  - by apply _get_agent_known.
  - by apply _get_agent_unknown.
Qed.

Lemma init_sub_agents_state objs s :
  objs <> [] -> Forall (live s) objs ->
  fst (init_sub_agents objs s)
  = set_sub_agents (dict_of_items (items_of s objs)) s.
Proof.
  intros Hne Hlive. destruct objs as [|l [|l' objs]]; [done | |].
  - rewrite init_sub_agents_single; [done|].
    by apply Forall_cons in Hlive as [? _].
  - rewrite init_sub_agents_multi; [done | cbn; lia | done].
Qed.

Lemma items_of_elem s objs l a :
  l ∈ objs -> heap s !! l = Some a -> (agent_id a, l) ∈ items_of s objs.
Proof.
  intros Hin Hl. unfold items_of. apply list_elem_of_omap.
  exists l. split; [done|]. by rewrite Hl.
Qed.

(** [_update_store] followed by [_get_agent]: the persisted object is
    what its id resolves to, whatever was registered under that id
    before, also when the store key was unset; every other id resolves
    as before. *)
Theorem persist_then_resolve l a s :
  heap s !! l = Some a ->
  _get_agent (Some (agent_id a)) (fst (_update_store (Some l) s))
  = (fst (_update_store (Some l) s), Returns (Some l))
  /\ forall id,
      id <> agent_id a ->
      snd (_get_agent (Some id) (fst (_update_store (Some l) s)))
      = snd (_get_agent (Some id) s).
Proof.
  intros Hl. rewrite (_update_store_live l a s Hl). cbn [fst].
  split.
  - rewrite _get_agent_some. cbn [sub_agents set_sub_agents default
      from_option id]. by rewrite dict_get_setitem_eq.
  - intros id Hne. rewrite !_get_agent_some.
    cbn [snd sub_agents set_sub_agents]. f_equal.
    change (default [] (Some ?d)) with d.
    by apply dict_get_setitem_ne.
Qed.

(** [_update_store] never reorders the registry: an id that is present
    keeps its position and a new id goes last, so on a registry that is
    not empty the first key, the one a lookup with no id resolves, stays
    the first; the object under it changes only when the persisted object
    carries that very id. *)
Theorem persist_keeps_order l a s :
  heap s !! l = Some a ->
  dict_keys (default [] (sub_agents (fst (_update_store (Some l) s))))
  = (if dict_contains (agent_id a) (default [] (sub_agents s))
     then dict_keys (default [] (sub_agents s))
     else dict_keys (default [] (sub_agents s)) ++ [agent_id a])
  /\ forall k l0 d,
      sub_agents s = Some ((k, l0) :: d) ->
      _get_agent None (fst (_update_store (Some l) s))
      = (fst (_update_store (Some l) s),
         Returns (Some (if String.eqb (agent_id a) k then l else l0))).
Proof.
  intros Hl. rewrite (_update_store_live l a s Hl). cbn [fst].
  split.
  - cbn [sub_agents set_sub_agents]. change (default [] (Some ?d)) with d.
    apply dict_keys_setitem.
  - intros k l0 d Hs. rewrite Hs.
    change (default [] (Some ?d)) with d. cbn [dict_setitem].
    destruct (String.eqb (agent_id a) k);
      by eapply _get_agent_default.
Qed.

(** The registry a build installs replaces the old one wholesale and
    has one entry per id: an id resolves to the last object of the list
    that carries it, and when the ids of the list are distinct the
    registry is the list itself, in order, so every object is found under
    its own id. *)
Theorem build_then_resolve objs s :
  objs <> [] ->
  Forall (live s) objs ->
  NoDup (dict_keys
           (default [] (sub_agents (fst (init_sub_agents objs s)))))
  /\ (forall id,
         _get_agent (Some id) (fst (init_sub_agents objs s))
         = (fst (init_sub_agents objs s),
            Returns (dict_get id (reverse (items_of s objs)))))
  /\ (NoDup (map fst (items_of s objs)) ->
      sub_agents (fst (init_sub_agents objs s)) = Some (items_of s objs)
      /\ forall l a,
          l ∈ objs -> heap s !! l = Some a ->
          _get_agent (Some (agent_id a)) (fst (init_sub_agents objs s))
          = (fst (init_sub_agents objs s), Returns (Some l))).
Proof.
  intros Hne Hlive. rewrite (init_sub_agents_state objs s Hne Hlive).
  cbn [sub_agents set_sub_agents]. change (default [] (Some ?d)) with d.
  split; [|split].
  - unfold dict_of_items. apply fold_setitem_NoDup. constructor.
  - intros id. rewrite _get_agent_some. do 2 f_equal.
    cbn [sub_agents set_sub_agents]. change (default [] (Some ?d)) with d.
    unfold dict_of_items. rewrite fold_setitem_get.
    by destruct (dict_get id (reverse (items_of s objs))).
  - intros Hnd.
    assert (dict_of_items (items_of s objs) = items_of s objs) as Heq.
    { unfold dict_of_items. by rewrite fold_setitem_distinct. }
    rewrite Heq. split; [done|].
    intros l a Hin Hl. rewrite _get_agent_some. do 2 f_equal.
    cbn [sub_agents set_sub_agents]. change (default [] (Some ?d)) with d.
    apply dict_get_elem_of; [done | by apply items_of_elem].
Qed.
End PersistResolve.

(** ** Edge cases of the run and chat logic *)
Section EdgeCases.
Context `{H : Harness}.

Lemma range_nonpos n : n <= 0 -> range n = [].
Proof. intros Hn. unfold range. by replace (Z.to_nat n) with O by lia. Qed.

(** A run on an object whose budget is zero or negative never enters the
    loop: it appends the instruction, calls no collaborator, writes the
    object to the registry, and then raises [UnboundLocalError] when it
    formats the loop variable that was never bound; this holds whether or
    not the object has tools. *)
Theorem run_without_budget l a instructions s :
  heap s !! l = Some a ->
  max_steps a <= 0 ->
  _run_logic (Some l) instructions s
  = ({| heap :=
          <[l := with_messages a
                   (messages a ++ [ChatMessageUser instructions])]> (heap s);
        _id_counter := _id_counter s;
        sub_agents :=
          Some (dict_setitem (agent_id a) l (default [] (sub_agents s)));
        world := world s;
        log := log s |},
     Raises UnboundLocalError).
Proof.
  intros Hl Hn. unfold _run_logic.
  erewrite bind_returns by (apply messages_extend_eq, Hl).
  pose proof (lookup_set_heap l a
                (with_messages a (messages a ++ [ChatMessageUser instructions]))
                s Hl) as Hl1.
  erewrite bind_returns by (apply getattr_live; exact Hl1).
  cbn [max_steps with_messages]. rewrite (range_nonpos _ Hn).
  cbn [run_loop]. erewrite bind_returns by reflexivity.
  erewrite bind_returns by (apply _update_store_live; exact Hl1).
  reflexivity.
Qed.

(** A chat whose model call fails leaves the question in the object's
    history, makes that one call and no other, does not write the
    registry, and lets the failure through unchanged; a chat whose model
    lookup fails does the same without any model call. *)
Theorem chat_failure_keeps_question l a question s w0 w e :
  heap s !! l = Some a ->
  (get_model (model a) (world s) = (w0, Returns tt) ->
   generate (model a) (messages a ++ [ChatMessageUser question]) None
     w0 = (w, Raises e) ->
   _chat_logic (Some l) question s
   = ({| heap :=
           <[l := with_messages a
                    (messages a ++ [ChatMessageUser question])]> (heap s);
         _id_counter := _id_counter s;
         sub_agents := sub_agents s;
         world := w;
         log := log s ++
                [EvGenerate (model a)
                   (messages a ++ [ChatMessageUser question]) None
                   (Raises e)] |},
      Raises e))
  /\ (get_model (model a) (world s) = (w0, Raises e) ->
      _chat_logic (Some l) question s
      = ({| heap :=
              <[l := with_messages a
                       (messages a ++ [ChatMessageUser question])]> (heap s);
            _id_counter := _id_counter s;
            sub_agents := sub_agents s;
            world := w0;
            log := log s |},
         Raises e)).
Proof.
  intros Hl.
  pose proof (lookup_set_heap l a
                (with_messages a (messages a ++ [ChatMessageUser question]))
                s Hl) as Hl1.
  split.
  - intros Hgm Hgen. unfold _chat_logic.
    erewrite bind_returns by (apply messages_extend_eq, Hl).
    erewrite bind_returns by (apply getattr_live; exact Hl1).
    cbn [model with_messages].
    erewrite bind_returns by (apply do_get_model_eq; exact Hgm).
    erewrite bind_returns by (apply getattr_live; exact Hl1).
    cbn [messages with_messages].
    erewrite bind_raises; [reflexivity|].
    unfold do_generate. cbn [world set_world_only]. by rewrite Hgen.
  - intros Hgm. unfold _chat_logic.
    erewrite bind_returns by (apply messages_extend_eq, Hl).
    erewrite bind_returns by (apply getattr_live; exact Hl1).
    cbn [model with_messages].
    erewrite bind_raises by (apply do_get_model_eq; exact Hgm).
    reflexivity.
Qed.

Lemma transcript_app evs evs' :
  transcript (evs ++ evs') = transcript evs ++ transcript evs'.
Proof. unfold transcript. by rewrite map_app, concat_app. Qed.

Lemma step_transcript ts ms evs r :
  step_shape ts ms evs r -> ms = transcript evs.
Proof.
  destruct 1; cbn; try done.
  by rewrite app_nil_r.
Qed.

Lemma loop_transcript ts indices steps ms evs r :
  loop_shape ts indices steps ms evs r -> ms = transcript evs.
Proof.
  induction 1 as [steps | i rest steps ms evs Hs | i rest steps ms evs e Hs
                 | i rest steps ms evs ms' evs' r Hs Hl IH].
  - done.
  - by eapply step_transcript.
  - by eapply step_transcript.
  - rewrite transcript_app, IH. f_equal. by eapply step_transcript.
Qed.

(** The history a run leaves behind is the old history, the instruction
    as one user message, and then, call by call in the order the
    collaborators were called, the assistant message of every model call
    that returned and the results of every dispatch that returned, in the
    order the dispatcher gave them; this also holds for a run that fails
    part way.  No other object changes. *)
Theorem run_history_follows_log l a instructions s :
  heap s !! l = Some a ->
  exists evs,
    log (fst (_run_logic (Some l) instructions s)) = log s ++ evs
    /\ heap (fst (_run_logic (Some l) instructions s))
       = <[l := with_messages a
                   (messages a ++
                    ChatMessageUser instructions :: transcript evs)]>
           (heap s).
Proof.
  intros Hl.
  destruct (_run_logic_spec l a instructions s Hl)
    as (ms & evs & r & Hheap & _ & Hlog & _ & Hshape & _ & _).
  exists evs. split; [exact Hlog|].
  by rewrite <- (loop_transcript _ _ _ _ _ _ Hshape).
Qed.

(** A run that returns has written its object to the registry: the
    object's id resolves to it afterwards, also when it was not
    registered before or another object was registered under its id. *)
Theorem run_persists_on_return l a instructions s out :
  heap s !! l = Some a ->
  snd (_run_logic (Some l) instructions s) = Returns out ->
  sub_agents (fst (_run_logic (Some l) instructions s))
  = Some (dict_setitem (agent_id a) l (default [] (sub_agents s)))
  /\ _get_agent (Some (agent_id a)) (fst (_run_logic (Some l) instructions s))
     = (fst (_run_logic (Some l) instructions s), Returns (Some l)).
Proof.
  intros Hl Hout.
  destruct (_run_logic_spec l a instructions s Hl)
    as (ms & evs & r & _ & _ & _ & Hpers & _ & _ & Hres).
  rewrite Hres in Hout. destruct r as [st|e]; [|discriminate Hout].
  cbn in Hpers. split; [exact Hpers|].
  rewrite _get_agent_some, Hpers. cbn [default from_option id].
  by rewrite dict_get_setitem_eq.
Qed.
End EdgeCases.


(** ** What no operation of the module ever does *)
Section Steady.
Context `{H : Harness}.

Lemma grows_same_heap s s' : heap s' = heap s -> grows s s'.
Proof.
  intros Hh. split; [by rewrite Hh|]. intros l a Hl. exists [].
  by rewrite Hh, app_nil_r, with_messages_same.
Qed.

Lemma grows_refl s : grows s s.
Proof. by apply grows_same_heap. Qed.

Lemma grows_trans s1 s2 s3 : grows s1 s2 -> grows s2 s3 -> grows s1 s3.
Proof.
  intros [Hlen1 Hg1] [Hlen2 Hg2]. split; [congruence|].
  intros l a Hl. destruct (Hg1 l a Hl) as [ms1 Hl1].
  destruct (Hg2 l _ Hl1) as [ms2 Hl2].
  exists (ms1 ++ ms2). rewrite Hl2. cbn. by rewrite app_assoc.
Qed.

Lemma steady_refl s : steady s s.
Proof. split; [apply grows_refl | done]. Qed.

Lemma steady_trans s1 s2 s3 : steady s1 s2 -> steady s2 s3 -> steady s1 s3.
Proof.
  intros [Hg1 Hr1] [Hg2 Hr2]. split; [by eapply grows_trans | auto].
Qed.

(** A well-formed registry stays well-formed when histories grow and the
    registry itself is left alone. *)
Lemma steady_same_registry s s' :
  grows s s' -> sub_agents s' = sub_agents s -> steady s s'.
Proof.
  intros Hg Hs. split; [done|]. intros [Hnd Hok].
  unfold registry_ok. rewrite Hs.
  split; [done|]. intros k l Hk.
  destruct (Hok k l Hk) as (a & Hl & Hid).
  destruct (proj2 Hg l a Hl) as [ms Hl']. by eexists.
Qed.

Lemma st_ret {A} (a : A) : steadily (ret a).
Proof. intros s. apply steady_refl. Qed.

Lemma st_raise {A} e : steadily (@raise _ A e).
Proof. intros s. apply steady_refl. Qed.

Lemma st_bind {A B} (c : M A) (k : A -> M B) :
  steadily c -> (forall a, steadily (k a)) -> steadily (bind c k).
Proof.
  intros Hc Hk s. unfold bind. specialize (Hc s).
  destruct (c s) as [s' [a|e]]; cbn [fst] in *; [|done].
  eapply steady_trans; [exact Hc | apply Hk].
Qed.

Lemma st_getattr {A} o (f : SubAgent -> A) : steadily (getattr o f).
Proof.
  intros s. unfold getattr. destruct o as [l|]; [|apply steady_refl].
  destruct (heap s !! l); apply steady_refl.
Qed.

Lemma st_messages_extend o ms : steadily (messages_extend o ms).
Proof.
  intros s. unfold messages_extend. destruct o as [l|]; [|apply steady_refl].
  destruct (heap s !! l) as [a|] eqn:Hl; [|apply steady_refl].
  apply steady_same_registry; [|done]. cbn [fst]. split.
  - cbn. apply length_insert.
  - intros l' a' Hl'. cbn [heap set_heap].
    destruct (decide (l' = l)) as [->|Hne].
    + exists ms. rewrite list_lookup_insert_eq by (by eapply lookup_lt_Some).
      congruence.
    + exists []. rewrite list_lookup_insert_ne by done.
      by rewrite app_nil_r, with_messages_same.
Qed.

Lemma st_store_get d : steadily (store_get d).
Proof.
  intros s. unfold store_get. destruct (sub_agents s); apply steady_refl.
Qed.

Lemma st_do_get_model m : steadily (do_get_model m).
Proof.
  intros s. unfold do_get_model.
  destruct (get_model m (world s)) as [w out].
  apply steady_same_registry; [by apply grows_same_heap | done].
Qed.

Lemma st_do_generate m input offered :
  steadily (do_generate m input offered).
Proof.
  intros s. unfold do_generate.
  destruct (generate m input offered (world s)) as [w out].
  apply steady_same_registry; [by apply grows_same_heap | done].
Qed.

Lemma st_do_call_tools msg offered : steadily (do_call_tools msg offered).
Proof.
  intros s. unfold do_call_tools.
  destruct (call_tools msg offered (world s)) as [w out].
  apply steady_same_registry; [by apply grows_same_heap | done].
Qed.

Create HintDb st discriminated.
Hint Resolve st_ret st_raise st_getattr st_messages_extend st_store_get
  st_do_get_model st_do_generate st_do_call_tools : st.

Ltac st :=
  repeat first
    [ solve [auto with st]
    | apply st_bind; [|intros ?]
    | match goal with
      | |- steadily (match ?x with _ => _ end) => destruct x
      end ].

Lemma st__get_agent sub_agent_id : steadily (_get_agent sub_agent_id).
Proof. unfold _get_agent, first_key, dict_getitem. st. Qed.

Lemma dict_get_setitem_cases (k k' : string) (l l' : loc) (d : dict loc) :
  dict_get k' (dict_setitem k l d) = Some l' ->
  (k' = k /\ l' = l) \/ (k' <> k /\ dict_get k' d = Some l').
Proof.
  intros Hget. destruct (decide (k' = k)) as [->|Hne].
  - rewrite dict_get_setitem_eq in Hget. left. split; congruence.
  - rewrite dict_get_setitem_ne in Hget by done. by right.
Qed.

Lemma st__update_store sub_agent : steadily (_update_store sub_agent).
Proof.
  intros s. destruct sub_agent as [l|].
  2:{ unfold _update_store, bind, store_get.
      destruct (sub_agents s); apply steady_refl. }
  destruct (heap s !! l) as [a|] eqn:Hl.
  2:{ unfold _update_store, bind, store_get, getattr.
      destruct (sub_agents s); cbn; rewrite Hl; apply steady_refl. }
  rewrite (_update_store_live l a s Hl). cbn [fst].
  split; [by apply grows_same_heap|]. intros [Hnd Hok]. split.
  - cbn [sub_agents set_sub_agents]. change (default [] (Some ?d)) with d.
    by apply dict_keys_setitem_NoDup.
  - intros k l'. cbn [sub_agents set_sub_agents heap].
    change (default [] (Some ?d)) with d.
    intros [[-> ->]|[_ Hold]]%dict_get_setitem_cases; [by eexists|].
    by apply Hok.
Qed.

Lemma st_run_step sub_agent : steadily (run_step sub_agent).
Proof. unfold run_step, with_end_run. st. Qed.

Hint Resolve st__get_agent st__update_store st_run_step : st.

Lemma st_run_loop sub_agent indices :
  forall steps, steadily (run_loop sub_agent indices steps).
Proof.
  induction indices as [|i rest IH]; intros steps; cbn [run_loop]; st.
Qed.

Hint Resolve st_run_loop : st.

Lemma st__run_logic sub_agent instructions :
  steadily (_run_logic sub_agent instructions).
Proof. unfold _run_logic. st. Qed.

Lemma st__chat_logic sub_agent question :
  steadily (_chat_logic sub_agent question).
Proof. unfold _chat_logic. st. Qed.

Hint Resolve st__run_logic st__chat_logic : st.

Lemma st_call t args : steadily (call t args).
Proof. unfold call, str_of. st. Qed.

Lemma dict_get_Some_elem (k : string) (l : loc) (d : dict loc) :
  dict_get k d = Some l -> (k, l) ∈ d.
Proof.
  induction d as [|[k' l'] d IH]; cbn; [done|].
  destruct (String.eqb_spec k k') as [->|_].
  - intros [= ->]. apply elem_of_cons. by left.
  - intros Hd. apply elem_of_cons. right. by apply IH.
Qed.

(** The comprehension reads ids only: it leaves the state alone, and the
    pairs it yields pair each object with its own id. *)
Lemma id_items_spec objs s :
  fst (id_items objs s) = s
  /\ forall items,
      snd (id_items objs s) = Returns items ->
      forall k l, (k, l) ∈ items ->
                  exists a, heap s !! l = Some a /\ agent_id a = k.
Proof.
  induction objs as [|l objs [IHs IHi]]; cbn [id_items].
  - split; [done|]. intros items [= <-] k l Hin. by apply elem_of_nil in Hin.
  - unfold bind, getattr. destruct (heap s !! l) as [a|] eqn:Hl; [|done].
    destruct (id_items objs s) as [s1 [items|e]]; cbn [fst snd] in *;
      subst s1; [|done].
    split; [done|]. intros items' [= <-] k l' Hin.
    apply elem_of_cons in Hin as [[= -> ->]|Hin]; [by eexists|].
    by eapply IHi.
Qed.

Lemma st_init_sub_agents objs : steadily (init_sub_agents objs).
Proof.
  intros s. unfold init_sub_agents.
  destruct (Z.of_nat (length objs) <? 1); [apply steady_refl|].
  destruct (id_items_spec objs s) as [Hs Hitems]. unfold bind.
  destruct (id_items objs s) as [s1 [items|e]]; cbn [fst snd] in *; subst s1;
    [|apply steady_refl].
  assert (steady s (set_sub_agents (dict_of_items items) s)) as Hst.
  { split; [by apply grows_same_heap|]. intros _. split.
    - cbn [sub_agents set_sub_agents]. change (default [] (Some ?d)) with d.
      unfold dict_of_items. apply fold_setitem_NoDup. constructor.
    - intros k l. cbn [sub_agents set_sub_agents heap].
      change (default [] (Some ?d)) with d.
      unfold dict_of_items. rewrite fold_setitem_get. cbn [dict_get].
      destruct (dict_get k (reverse items)) as [l'|] eqn:Hk; [|done].
      intros [= ->]. apply dict_get_Some_elem in Hk.
      rewrite elem_of_reverse in Hk. exact (Hitems items eq_refl _ _ Hk). }
  cbn [store_set].
  destruct (Z.of_nat (length objs) >? 1); [exact Hst|].
  destruct (Z.of_nat (length objs) =? 1); exact Hst.
Qed.
End Steady.

(** ** Invariants of every process *)
Section ProcessInvariants.
Context `{H : Harness}.

(** Whatever tool is called, with whatever arguments and whatever the
    outcome, no object appears or disappears and every object keeps its
    id, budget, model, description, tools and metadata; the only change
    an object can undergo is that messages are appended to its history.
    In particular the termination tool is never stored into an object's
    tools and [str] of an object does not change. *)
Theorem tool_call_only_appends t args s :
  length (heap (fst (call t args s))) = length (heap s)
  /\ forall l a,
      heap s !! l = Some a ->
      exists ms,
        heap (fst (call t args s)) !! l
        = Some (with_messages a (messages a ++ ms))
        /\ tools (with_messages a (messages a ++ ms)) = tools a
        /\ SubAgent_str (with_messages a (messages a ++ ms))
           = SubAgent_str a.
Proof.
  destruct (st_call t args s) as [[Hlen Hg] _]. split; [exact Hlen|].
  intros l a Hl. destruct (Hg l a Hl) as [ms Hl']. by exists ms.
Qed.

Lemma seeded_grows s s' : grows s s' -> seeded s -> seeded s'.
Proof.
  intros [Hlen Hg] Hseed. unfold seeded in *.
  rewrite Forall_lookup in Hseed |- *. intros l a' Hl'.
  destruct (lookup_lt_is_Some_2 (heap s) l) as [a Hl].
  { rewrite <- Hlen. by eapply lookup_lt_Some. }
  destruct (Hg l a Hl) as [ms Hnew]. rewrite Hnew in Hl'.
  injection Hl' as <-. destruct (Hseed l a Hl) as (c & rest & Hm).
  exists c, (rest ++ ms). cbn. by rewrite Hm.
Qed.

Lemma perform_keeps_invariants act s :
  seeded s /\ registry_ok s ->
  seeded (fst (perform act s)) /\ registry_ok (fst (perform act s)).
Proof.
  intros [Hseed Hreg].
  destruct act as [args|objs|single which args]; cbn [perform].
  - assert (exists a,
               fst (SubAgent_init args s)
               = set_heap (heap s ++ [a])
                   (set_counter (_id_counter (fst (SubAgent_init args s))) s)
               /\ exists c, messages a = [ChatMessageSystem c])
      as (a & Hs' & c & Hm).
    { unfold SubAgent_init.
      destruct (arg_agent_id args); eexists; (split; [reflexivity|]);
        by eexists. }
    assert (seeded (fst (SubAgent_init args s))
            /\ registry_ok (fst (SubAgent_init args s))) as Hboth.
    { rewrite Hs'. split.
      - apply Forall_app. split; [exact Hseed|].
        constructor; [|constructor]. by exists c, [].
      - destruct Hreg as [Hnd Hok]. split; [exact Hnd|].
        intros k l Hk. destruct (Hok k l Hk) as (a' & Hl & Hid).
        exists a'. split; [|done]. cbn. by apply lookup_app_l_Some. }
    by destruct (arg_agent_id args).
  - destruct (st_init_sub_agents objs s) as [Hg Hr].
    split; [by eapply seeded_grows | by apply Hr].
  - destruct (st_call (nth_tool single which) args s) as [Hg Hr].
    split; [by eapply seeded_grows | by apply Hr].
Qed.

Lemma fst_perform_all_cons act acts s :
  fst (perform_all (act :: acts) s)
  = fst (perform_all acts (fst (perform act s))).
Proof.
  cbn [perform_all]. destruct (perform act s) as [s1 id]. cbn [fst].
  by destruct (perform_all acts s1).
Qed.

Lemma perform_all_keeps_invariants acts :
  forall s,
    seeded s /\ registry_ok s ->
    seeded (fst (perform_all acts s))
    /\ registry_ok (fst (perform_all acts s)).
Proof.
  induction acts as [|act acts IH]; intros s Hinv; [done|].
  rewrite fst_perform_all_cons. by apply IH, perform_keeps_invariants.
Qed.

Lemma fresh_invariants w : seeded (fresh w) /\ registry_ok (fresh w).
Proof.
  split; [constructor|]. split; [constructor | done].
Qed.

(** In every state a process can reach by constructing objects, building
    tool surfaces and calling tools, whether the calls succeed or fail,
    every object's history is non-empty and starts with a system
    message. *)
Theorem histories_start_with_system_message acts w l a :
  heap (fst (perform_all acts (fresh w))) !! l = Some a ->
  exists c rest, messages a = ChatMessageSystem c :: rest.
Proof.
  intros Hl.
  destruct (perform_all_keeps_invariants acts _ (fresh_invariants w))
    as [Hseed _].
  unfold seeded in Hseed. rewrite Forall_lookup in Hseed. by eapply Hseed.
Qed.

(** In every such state the registry has no duplicate keys, and an id
    that resolves resolves to an allocated object whose [agent_id] is
    that id. *)
Theorem resolved_object_carries_its_id acts w id l :
  _get_agent (Some id) (fst (perform_all acts (fresh w)))
  = (fst (perform_all acts (fresh w)), Returns (Some l)) ->
  NoDup (dict_keys
           (default [] (sub_agents (fst (perform_all acts (fresh w))))))
  /\ exists a,
      heap (fst (perform_all acts (fresh w))) !! l = Some a
      /\ agent_id a = id.
Proof.
  intros Hget.
  destruct (perform_all_keeps_invariants acts _ (fresh_invariants w))
    as [_ [Hnd Hok]].
  split; [exact Hnd|]. apply Hok.
  rewrite _get_agent_some in Hget. congruence.
Qed.

(** Listing the specifications, in either mode and also when it fails,
    changes nothing; in single mode over a registry whose first entry is
    a live object it returns that object's description. *)
Theorem listing_specs_changes_nothing single s :
  fst (call (sub_agent_specs single) [] s) = s
  /\ forall k l d a,
      sub_agents s = Some ((k, l) :: d) ->
      heap s !! l = Some a ->
      snd (call (sub_agent_specs true) [] s) = Returns (SubAgent_str a).
Proof.
  split.
  - destruct single.
    + cbn [call].
      unfold bind, _get_agent, bind, store_get, first_key, dict_getitem,
        dict_contains.
      destruct (sub_agents s) as [[|[k l] d]|]; cbn; try done.
      rewrite String.eqb_refl. cbn. unfold getattr.
      by destruct (heap s !! l).
    + by rewrite list_specs_multi_lists_keys.
  - intros k l d a Hs Hl. cbn [call].
    erewrite bind_returns by (by eapply _get_agent_default).
    cbn [str_of]. by rewrite (getattr_live _ _ _ _ Hl).
Qed.
End ProcessInvariants.


(** ** What the collaborators are given *)
Section Inputs.
Context `{H : Harness}.

Lemma well_fed_app m offered evs :
  forall hist evs',
    well_fed m offered hist evs ->
    well_fed m offered (hist ++ transcript evs) evs' ->
    well_fed m offered hist (evs ++ evs').
Proof.
  induction evs as [|ev evs IH]; intros hist evs' Hevs Hevs'.
  - cbn in Hevs'. by rewrite app_nil_r in Hevs'.
  - destruct Hevs as [Hev Hevs]. split; [exact Hev|].
    apply IH; [exact Hevs|].
    change (transcript (ev :: evs))
      with (event_messages ev ++ transcript evs) in Hevs'.
    by rewrite app_assoc in Hevs'.
Qed.

Lemma run_step_fed l a ts s :
  heap s !! l = Some a ->
  tools a = Some ts ->
  exists evs,
    evolves l a (transcript evs) evs s (fst (run_step (Some l) s))
    /\ well_fed (model a) (ts ++ [_end_run]) (messages a) evs.
Proof.
  intros Hl Hts. unfold run_step.
  erewrite bind_returns by (apply getattr_live; exact Hl).
  destruct (do_get_model_spec (model a) l a s Hl)
    as (s0 & out0 & Hgm & _ & Hev0).
  pose proof (evolves_lookup_nil _ _ _ _ _ Hl Hev0) as Hl0.
  destruct out0 as [[]|e0].
  2:{ erewrite bind_raises by exact Hgm. exists []. by split. }
  erewrite bind_returns by exact Hgm.
  do 2 (erewrite bind_returns by (apply getattr_live; exact Hl0)).
  rewrite Hts. erewrite bind_returns by reflexivity.
  set (offered := ts ++ [_end_run]).
  destruct (do_generate_spec (model a) (messages a) (Some offered)
              l a s0 Hl0) as (s1 & out & Hg & _ & Hev1').
  pose proof (evolves_trans_nil _ _ _ _ _ _ _ _ Hev0 Hev1') as Hev1.
  pose proof (evolves_lookup_nil _ _ _ _ _ Hl Hev1) as Hl1.
  destruct out as [o|e].
  2:{ erewrite bind_raises by exact Hg.
      exists [EvGenerate (model a) (messages a) (Some offered) (Raises e)].
      split; [exact Hev1|]. by repeat split. }
  erewrite bind_returns by exact Hg.
  destruct (messages_extend_live l a [MessageAssistant (message o)] s1 Hl1)
    as (s2 & Hm & Hev2).
  erewrite bind_returns by exact Hm.
  pose proof (evolves_lookup _ _ _ _ _ _ Hl1 Hev2) as Hl2.
  pose proof (evolves_trans_nil _ _ _ _ _ _ _ _ Hev1 Hev2) as Hev12.
  destruct (truthy (tool_calls (message o))) eqn:Htc.
  2:{ exists [EvGenerate (model a) (messages a) (Some offered) (Returns o)].
      split; [exact Hev12|]. by repeat split. }
  erewrite bind_returns by (apply getattr_live; exact Hl2).
  cbn [tools with_messages]. rewrite Hts.
  erewrite bind_returns by reflexivity. fold offered.
  destruct (do_call_tools_spec (message o) offered l _ s2 Hl2)
    as (s3 & out & Hc & _ & Hev3).
  pose proof (evolves_lookup_nil _ _ _ _ _ Hl2 Hev3) as Hl3.
  destruct out as [results|e].
  2:{ erewrite bind_raises by exact Hc.
      exists [EvGenerate (model a) (messages a) (Some offered) (Returns o);
              EvCallTools (message o) offered (Raises e)].
      split.
      - exact (evolves_trans _ _ _ _ _ _ _ _ _ Hev12 Hev3).
      - split; [done|]. split; [|done]. split; [|done].
        cbn [event_messages]. by rewrite last_snoc. }
  erewrite bind_returns by exact Hc.
  destruct (messages_extend_live l _ (map MessageTool results) s3 Hl3)
    as (s4 & Hm4 & Hev4).
  erewrite bind_returns by exact Hm4.
  exists [EvGenerate (model a) (messages a) (Some offered) (Returns o);
          EvCallTools (message o) offered (Returns results)].
  split.
  - pose proof (evolves_trans _ _ _ _ _ _ _ _ _ Hev12
                  (evolves_trans_nil _ _ _ _ _ _ _ _ Hev3 Hev4)) as Hev.
    cbn [transcript map concat event_messages].
    rewrite app_nil_r. exact Hev.
  - split; [done|]. split; [|done]. split; [|done].
    cbn [event_messages]. by rewrite last_snoc.
Qed.

Lemma run_loop_fed l ts indices :
  forall a steps s,
    heap s !! l = Some a ->
    tools a = Some ts ->
    exists evs,
      evolves l a (transcript evs) evs s
        (fst (run_loop (Some l) indices steps s))
      /\ well_fed (model a) (ts ++ [_end_run]) (messages a) evs.
Proof.
  induction indices as [|i rest IH]; intros a steps s Hl Hts.
  - exists []. split; [by apply evolves_refl | done].
  - cbn [run_loop].
    destruct (run_step_fed l a ts s Hl Hts) as (evs & Hev & Hfed).
    destruct (run_step (Some l) s) as [s1 [[|]|e]] eqn:Hstep;
      cbn [fst] in Hev.
    + erewrite bind_returns by exact Hstep. by exists evs.
    + erewrite bind_returns by exact Hstep.
      pose proof (evolves_lookup _ _ _ _ _ _ Hl Hev) as Hl1.
      destruct (IH _ (Some i) s1 Hl1 Hts) as (evs' & Hev' & Hfed').
      exists (evs ++ evs'). rewrite transcript_app.
      split; [by eapply evolves_trans|]. by apply well_fed_app.
    + erewrite bind_raises by exact Hstep. by exists evs.
Qed.

(** In a run on an object with a list of tools, every model call goes to
    the object's own model with the whole history as it stands at that
    moment, the old messages, the instruction and everything the run has
    appended so far, and is offered the object's tools followed by the
    termination tool; every dispatch is given the assistant message that
    was just appended and the same tools. *)
Theorem model_sees_full_history l a ts instructions s :
  heap s !! l = Some a ->
  tools a = Some ts ->
  exists evs,
    log (fst (_run_logic (Some l) instructions s)) = log s ++ evs
    /\ well_fed (model a) (ts ++ [_end_run])
         (messages a ++ [ChatMessageUser instructions]) evs.
Proof.
  intros Hl Hts. unfold _run_logic.
  destruct (messages_extend_live l a [ChatMessageUser instructions] s Hl)
    as (s1 & Hm & Hev1).
  erewrite bind_returns by exact Hm.
  pose proof (evolves_lookup _ _ _ _ _ _ Hl Hev1) as Hl1.
  erewrite bind_returns by (apply getattr_live; exact Hl1).
  cbn [max_steps with_messages].
  destruct (run_loop_fed l ts (range (max_steps a)) _ None s1 Hl1 Hts)
    as (evs & Hev2 & Hfed).
  cbn [model messages with_messages] in Hfed.
  exists evs. split; [|exact Hfed].
  pose proof (evolves_lookup _ _ _ _ _ _ Hl1 Hev2) as Hl2.
  destruct Hev1 as [_ _ _ Hlog1]. destruct Hev2 as [_ _ _ Hlog2].
  rewrite app_nil_r in Hlog1.
  destruct (run_loop (Some l) (range (max_steps a)) None s1)
    as [s2 [steps|e]] eqn:Hloop; cbn [fst] in *.
  - erewrite bind_returns by exact Hloop.
    erewrite bind_returns by (apply _update_store_live; exact Hl2).
    destruct steps; cbn; congruence.
  - erewrite bind_raises by exact Hloop. cbn. congruence.
Qed.
End Inputs.

(** ** Isolation between objects *)
Section Isolation.
Context `{H : Harness}.

Lemma _chat_logic_heap l a question s :
  heap s !! l = Some a ->
  exists ms,
    heap (fst (_chat_logic (Some l) question s))
    = <[l := with_messages a (messages a ++ ms)]> (heap s).
Proof.
  intros Hl. unfold _chat_logic.
  destruct (messages_extend_live l a [ChatMessageUser question] s Hl)
    as (s1 & Hm & Hev1).
  erewrite bind_returns by exact Hm.
  pose proof (evolves_lookup _ _ _ _ _ _ Hl Hev1) as Hl1.
  erewrite bind_returns by (apply getattr_live; exact Hl1).
  set (a1 := with_messages a (messages a ++ [ChatMessageUser question]))
    in *.
  destruct (do_get_model_spec (model a1) l a1 s1 Hl1)
    as (s0 & out0 & Hgm & _ & Hev0).
  pose proof (evolves_lookup_nil _ _ _ _ _ Hl1 Hev0) as Hl0.
  destruct out0 as [[]|e0].
  2:{ erewrite bind_raises by exact Hgm. eexists.
      exact (ev_heap _ _ _ _ _ _
               (evolves_trans _ _ _ _ _ _ _ _ _ Hev1 Hev0)). }
  erewrite bind_returns by exact Hgm.
  erewrite bind_returns by (apply getattr_live; exact Hl0).
  destruct (do_generate_spec (model a1) (messages a1) None l a1 s0 Hl0)
    as (s2 & out & Hg & _ & Hev2').
  pose proof (evolves_trans_nil _ _ _ _ _ _ _ _ Hev0 Hev2') as Hev2.
  pose proof (evolves_lookup_nil _ _ _ _ _ Hl1 Hev2) as Hl2.
  pose proof (evolves_trans _ _ _ _ _ _ _ _ _ Hev1 Hev2) as Hev12.
  destruct out as [o|e].
  2:{ erewrite bind_raises by exact Hg. eexists.
      exact (ev_heap _ _ _ _ _ _ Hev12). }
  erewrite bind_returns by exact Hg.
  destruct (messages_extend_live l _ [MessageAssistant (message o)] s2 Hl2)
    as (s3 & Hm3 & Hev3).
  erewrite bind_returns by exact Hm3.
  pose proof (evolves_lookup _ _ _ _ _ _ Hl2 Hev3) as Hl3.
  erewrite bind_returns by (apply _update_store_live; exact Hl3).
  pose proof (evolves_trans _ _ _ _ _ _ _ _ _ Hev12
                (evolves_trans_nil _ _ _ _ _ _ _ _
                   (evolves_refl _ _ _ Hl2) Hev3)) as Hev.
  eexists. exact (ev_heap _ _ _ _ _ _ Hev).
Qed.

Lemma _run_logic_frame o instructions s l' :
  o <> Some l' ->
  heap (fst (_run_logic o instructions s)) !! l' = heap s !! l'.
Proof.
  intros Hne. destruct o as [l|]; [|done].
  destruct (heap s !! l) as [a|] eqn:Hl.
  - destruct (_run_logic_spec l a instructions s Hl)
      as (ms & evs & r & Hheap & _).
    cbn zeta in Hheap. rewrite Hheap.
    apply list_lookup_insert_ne. congruence.
  - unfold _run_logic, bind, messages_extend. by rewrite Hl.
Qed.

Lemma _chat_logic_frame o question s l' :
  o <> Some l' ->
  heap (fst (_chat_logic o question s)) !! l' = heap s !! l'.
Proof.
  intros Hne. destruct o as [l|]; [|done].
  destruct (heap s !! l) as [a|] eqn:Hl.
  - destruct (_chat_logic_heap l a question s Hl) as [ms Hheap].
    rewrite Hheap. apply list_lookup_insert_ne. congruence.
  - unfold _chat_logic, bind, messages_extend. by rewrite Hl.
Qed.

Lemma _get_agent_first s :
  _get_agent None s
  = (s, match default [] (sub_agents s) with
        | [] => Raises IndexError
        | (_, l) :: _ => Returns (Some l)
        end).
Proof.
  destruct (sub_agents s) as [[|[k l] d]|] eqn:Hs.
  - apply _get_agent_empty. by rewrite Hs.
  - by eapply _get_agent_default.
  - apply _get_agent_empty. by rewrite Hs.
Qed.

(** The run and chat tools change no object but their target: in multi
    mode every object other than the one registered under the given id
    is left exactly as it was, in single mode every object other than
    the first entry of the registry; when the id is unknown or the
    registry is empty, no object changes at all. *)
Theorem tools_touch_only_their_target id x s l' :
  (dict_get id (default [] (sub_agents s)) <> Some l' ->
   heap (fst (call (run_sub_agent false) [id; x] s)) !! l' = heap s !! l'
   /\ heap (fst (call (chat_with_sub_agent false) [id; x] s)) !! l'
      = heap s !! l')
  /\ ((forall k d, default [] (sub_agents s) <> (k, l') :: d) ->
      heap (fst (call (run_sub_agent true) [x] s)) !! l' = heap s !! l'
      /\ heap (fst (call (chat_with_sub_agent true) [x] s)) !! l'
         = heap s !! l').
Proof.
  split.
  - intros Hne. cbn [call].
    rewrite !(bind_returns _ _ _ _ _ (_get_agent_some id s)).
    split; [by apply _run_logic_frame | by apply _chat_logic_frame].
  - intros Hne. cbn [call].
    pose proof (_get_agent_first s) as Hfirst.
    destruct (default [] (sub_agents s)) as [|[k l] d] eqn:Hreg.
    + by rewrite !(bind_raises _ _ _ _ _ Hfirst).
    + rewrite !(bind_returns _ _ _ _ _ Hfirst).
      assert (Some l <> Some l') as Hl.
      { intros [= ->]. by apply (Hne k d). }
      split; [by apply _run_logic_frame | by apply _chat_logic_frame].
Qed.
End Isolation.


(** ** The further properties on the concrete scenarios *)

Lemma persist_then_resolve_witness :
  heap one_worker !! 0%nat = Some (object_at one_worker 0%nat)
  /\ "007" <> agent_id (object_at one_worker 0%nat)
  /\ _get_agent (Some (agent_id (object_at one_worker 0%nat)))
       (fst (_update_store (Some 0%nat) one_worker))
     = (fst (_update_store (Some 0%nat) one_worker), Returns (Some 0%nat))
  /\ snd (_get_agent (Some "007")
            (fst (_update_store (Some 0%nat) one_worker)))
     = snd (_get_agent (Some "007") one_worker).
Proof.
  assert (heap one_worker !! 0%nat = Some (object_at one_worker 0%nat))
    as Hl by (vm_compute; reflexivity).
  assert ("007" <> agent_id (object_at one_worker 0%nat))
    as Hne by (vm_compute; discriminate).
  destruct (persist_then_resolve (H := scripted) 0%nat _ one_worker Hl)
    as [Hself Hother].
  split; [exact Hl|]. split; [exact Hne|]. split; [exact Hself|].
  exact (Hother "007" Hne).
Defined.

Lemma persist_keeps_order_witness :
  heap two_defaults !! 1%nat = Some (object_at two_defaults 1%nat)
  /\ sub_agents two_defaults = Some [("001", 0%nat); ("002", 1%nat)]
  /\ dict_keys
       (default []
          (sub_agents (fst (_update_store (Some 1%nat) two_defaults))))
     = ["001"; "002"]
  /\ _get_agent None (fst (_update_store (Some 1%nat) two_defaults))
     = (fst (_update_store (Some 1%nat) two_defaults), Returns (Some 0%nat)).
Proof.
  assert (heap two_defaults !! 1%nat = Some (object_at two_defaults 1%nat))
    as Hl by (vm_compute; reflexivity).
  assert (sub_agents two_defaults = Some [("001", 0%nat); ("002", 1%nat)])
    as Hreg by (vm_compute; reflexivity).
  destruct (persist_keeps_order (H := scripted) 1%nat _ two_defaults Hl)
    as [Hkeys Hfirst].
  split; [exact Hl|]. split; [exact Hreg|]. split.
  - rewrite Hkeys. vm_compute. reflexivity.
  - rewrite (Hfirst _ _ _ Hreg). reflexivity.
Defined.

Lemma build_then_resolve_witness :
  [0; 1]%nat <> []
  /\ Forall (live two_defaults) [0; 1]%nat
  /\ NoDup (map fst (items_of two_defaults [0; 1]%nat))
  /\ heap two_defaults !! 1%nat = Some (object_at two_defaults 1%nat)
  /\ _get_agent (Some (agent_id (object_at two_defaults 1%nat)))
       (fst (init_sub_agents [0; 1]%nat two_defaults))
     = (fst (init_sub_agents [0; 1]%nat two_defaults), Returns (Some 1%nat)).
Proof.
  assert ([0; 1]%nat <> []) as Hne by discriminate.
  assert (Forall (live two_defaults) [0; 1]%nat) as Hlive.
  { repeat constructor; eexists; vm_compute; reflexivity. }
  assert (NoDup (map fst (items_of two_defaults [0; 1]%nat))) as Hnd.
  { vm_compute. apply NoDup_cons. split.
    - intros Hin. apply list_elem_of_singleton in Hin. discriminate Hin.
    - apply NoDup_singleton. }
  assert (heap two_defaults !! 1%nat = Some (object_at two_defaults 1%nat))
    as Hl by (vm_compute; reflexivity).
  destruct (build_then_resolve (H := scripted) [0; 1]%nat two_defaults
              Hne Hlive) as (_ & _ & Hdistinct).
  destruct (Hdistinct Hnd) as [_ Hfound].
  split; [exact Hne|]. split; [exact Hlive|]. split; [exact Hnd|].
  split; [exact Hl|]. apply Hfound; [|exact Hl].
  apply elem_of_cons. right. apply elem_of_cons. by left.
Defined.

Lemma run_without_budget_witness :
  heap idle_worker !! 0%nat = Some (object_at idle_worker 0%nat)
  /\ max_steps (object_at idle_worker 0%nat) <= 0
  /\ snd (_run_logic (Some 0%nat) "go" idle_worker) = Raises UnboundLocalError
  /\ log (fst (_run_logic (Some 0%nat) "go" idle_worker)) = log idle_worker.
Proof.
  assert (heap idle_worker !! 0%nat = Some (object_at idle_worker 0%nat))
    as Hl by (vm_compute; reflexivity).
  assert (max_steps (object_at idle_worker 0%nat) <= 0)
    as Hn by (vm_compute; discriminate).
  split; [exact Hl|]. split; [exact Hn|].
  rewrite (run_without_budget (H := scripted) 0%nat _ "go" idle_worker Hl Hn).
  split; reflexivity.
Defined.

Lemma chat_failure_keeps_question_witness :
  heap stranded_worker !! 0%nat = Some (object_at stranded_worker 0%nat)
  /\ get_model (Harness := unavailable)
       (model (object_at stranded_worker 0%nat)) (world stranded_worker)
     = (tt, Returns tt)
  /\ generate (Harness := unavailable)
       (model (object_at stranded_worker 0%nat))
       (messages (object_at stranded_worker 0%nat) ++ [ChatMessageUser "Hi"])
       None tt
     = (tt, Raises (CollaboratorError "model unavailable"))
  /\ snd (_chat_logic (Some 0%nat) "Hi" stranded_worker)
     = Raises (CollaboratorError "model unavailable")
  /\ sub_agents (fst (_chat_logic (Some 0%nat) "Hi" stranded_worker))
     = sub_agents stranded_worker.
Proof.
  assert (heap stranded_worker !! 0%nat
          = Some (object_at stranded_worker 0%nat))
    as Hl by (vm_compute; reflexivity).
  split; [exact Hl|]. split; [reflexivity|]. split; [reflexivity|].
  rewrite (proj1 (chat_failure_keeps_question (H := unavailable) 0%nat _
                    "Hi" stranded_worker tt tt
                    (CollaboratorError "model unavailable") Hl)
             eq_refl eq_refl).
  split; reflexivity.
Defined.

Lemma run_history_follows_log_witness :
  heap one_worker !! 0%nat = Some (object_at one_worker 0%nat)
  /\ exists evs,
      log (fst (_run_logic (Some 0%nat) "go" one_worker))
      = log one_worker ++ evs
      /\ heap (fst (_run_logic (Some 0%nat) "go" one_worker))
         = <[0%nat := with_messages (object_at one_worker 0%nat)
                        (messages (object_at one_worker 0%nat) ++
                         ChatMessageUser "go" :: transcript evs)]>
             (heap one_worker).
Proof.
  assert (heap one_worker !! 0%nat = Some (object_at one_worker 0%nat))
    as Hl by (vm_compute; reflexivity).
  split; [exact Hl|].
  exact (run_history_follows_log (H := scripted) 0%nat _ "go" one_worker Hl).
Defined.

Lemma run_persists_on_return_witness :
  heap one_worker !! 0%nat = Some (object_at one_worker 0%nat)
  /\ snd (_run_logic (Some 0%nat) "go" one_worker) = Returns (status 0)
  /\ _get_agent (Some (agent_id (object_at one_worker 0%nat)))
       (fst (_run_logic (Some 0%nat) "go" one_worker))
     = (fst (_run_logic (Some 0%nat) "go" one_worker), Returns (Some 0%nat)).
Proof.
  assert (heap one_worker !! 0%nat = Some (object_at one_worker 0%nat))
    as Hl by (vm_compute; reflexivity).
  assert (snd (_run_logic (Some 0%nat) "go" one_worker) = Returns (status 0))
    as Hout by (vm_compute; reflexivity).
  split; [exact Hl|]. split; [exact Hout|].
  exact (proj2 (run_persists_on_return (H := scripted) 0%nat _ "go"
                  one_worker (status 0) Hl Hout)).
Defined.

Lemma tool_call_only_appends_witness :
  heap two_defaults !! 0%nat = Some (object_at two_defaults 0%nat)
  /\ length (heap (fst (call (chat_with_sub_agent false) ["001"; "Hi"]
                          two_defaults)))
     = length (heap two_defaults)
  /\ exists ms,
      heap (fst (call (chat_with_sub_agent false) ["001"; "Hi"]
                   two_defaults)) !! 0%nat
      = Some (with_messages (object_at two_defaults 0%nat)
                (messages (object_at two_defaults 0%nat) ++ ms)).
Proof.
  assert (heap two_defaults !! 0%nat = Some (object_at two_defaults 0%nat))
    as Hl by (vm_compute; reflexivity).
  destruct (tool_call_only_appends (H := scripted)
              (chat_with_sub_agent false) ["001"; "Hi"] two_defaults)
    as [Hlen Hobj].
  destruct (Hobj _ _ Hl) as (ms & Hnew & _).
  split; [exact Hl|]. split; [exact Hlen|]. by exists ms.
Defined.

Lemma histories_start_with_system_message_witness :
  heap (fst (perform_all two_registries (@fresh scripted []))) !! 0%nat
  = Some (object_at (fst (perform_all two_registries (@fresh scripted [])))
            0%nat)
  /\ exists c rest,
      messages
        (object_at (fst (perform_all two_registries (@fresh scripted [])))
           0%nat)
      = ChatMessageSystem c :: rest.
Proof.
  assert (heap (fst (perform_all two_registries (@fresh scripted []))) !! 0%nat
          = Some (object_at
                    (fst (perform_all two_registries (@fresh scripted [])))
                    0%nat))
    as Hl by (vm_compute; reflexivity).
  split; [exact Hl|].
  exact (histories_start_with_system_message (H := scripted) two_registries
           [] 0%nat _ Hl).
Defined.

Lemma resolved_object_carries_its_id_witness :
  _get_agent (H := scripted) (Some "003")
    (fst (perform_all two_registries (@fresh scripted [])))
  = (fst (perform_all two_registries (@fresh scripted [])),
     Returns (Some 2%nat))
  /\ exists a,
      heap (fst (perform_all two_registries (@fresh scripted []))) !! 2%nat
      = Some a
      /\ agent_id a = "003".
Proof.
  assert (_get_agent (H := scripted) (Some "003")
            (fst (perform_all two_registries (@fresh scripted [])))
          = (fst (perform_all two_registries (@fresh scripted [])),
             Returns (Some 2%nat)))
    as Hget by (vm_compute; reflexivity).
  split; [exact Hget|].
  exact (proj2 (resolved_object_carries_its_id (H := scripted) two_registries
                  [] "003" 2%nat Hget)).
Defined.

Lemma listing_specs_changes_nothing_witness :
  sub_agents two_defaults = Some [("001", 0%nat); ("002", 1%nat)]
  /\ heap two_defaults !! 0%nat = Some (object_at two_defaults 0%nat)
  /\ fst (call (sub_agent_specs true) [] two_defaults) = two_defaults
  /\ snd (call (sub_agent_specs true) [] two_defaults)
     = Returns (SubAgent_str (H := scripted) (object_at two_defaults 0%nat)).
Proof.
  assert (sub_agents two_defaults = Some [("001", 0%nat); ("002", 1%nat)])
    as Hreg by (vm_compute; reflexivity).
  assert (heap two_defaults !! 0%nat = Some (object_at two_defaults 0%nat))
    as Hl by (vm_compute; reflexivity).
  destruct (listing_specs_changes_nothing (H := scripted) true two_defaults)
    as [Hsame Hstr].
  split; [exact Hreg|]. split; [exact Hl|]. split; [exact Hsame|].
  exact (Hstr _ _ _ _ Hreg Hl).
Defined.

Lemma model_sees_full_history_witness :
  heap one_worker !! 0%nat = Some (object_at one_worker 0%nat)
  /\ tools (object_at one_worker 0%nat) = Some [dummy_tool]
  /\ exists evs,
      log (fst (_run_logic (Some 0%nat) "go" one_worker))
      = log one_worker ++ evs
      /\ well_fed (model (object_at one_worker 0%nat))
           ([dummy_tool] ++ [_end_run])
           (messages (object_at one_worker 0%nat) ++ [ChatMessageUser "go"])
           evs.
Proof.
  assert (heap one_worker !! 0%nat = Some (object_at one_worker 0%nat))
    as Hl by (vm_compute; reflexivity).
  assert (tools (object_at one_worker 0%nat) = Some [dummy_tool])
    as Hts by (vm_compute; reflexivity).
  split; [exact Hl|]. split; [exact Hts|].
  exact (model_sees_full_history (H := scripted) 0%nat _ [dummy_tool] "go"
           one_worker Hl Hts).
Defined.

Lemma tools_touch_only_their_target_witness :
  dict_get "002" (default [] (sub_agents two_defaults)) <> Some 0%nat
  /\ heap (fst (call (run_sub_agent false) ["002"; "go"] two_defaults)) !! 0%nat
     = heap two_defaults !! 0%nat
  /\ heap (fst (call (chat_with_sub_agent false) ["002"; "Hi"] two_defaults))
       !! 0%nat
     = heap two_defaults !! 0%nat.
Proof.
  assert (dict_get "002" (default [] (sub_agents two_defaults)) <> Some 0%nat)
    as Hne by (vm_compute; discriminate).
  split; [exact Hne|]. split.
  - exact (proj1 (proj1 (tools_touch_only_their_target (H := scripted)
                           "002" "go" two_defaults 0%nat) Hne)).
  - exact (proj2 (proj1 (tools_touch_only_their_target (H := scripted)
                           "002" "Hi" two_defaults 0%nat) Hne)).
Defined.
